(** * Task lifecycle engine: registry, validator, archive pipeline, bulk attach

    A shallow embedding of the Go packages [errs], [validate], [models],
    [repository], [usecase], [delivery] and [config] of the collection-task
    service, followed by the properties of its specification and by
    further properties of the code.

    Conventions of the embedding:
    - a Go [string] is a [string]; [==] on strings is [String.eqb];
    - a Go [int] is a [Z] kept in the 64-bit two's-complement range by
      [wrap_int]; an [int64] read from the clock is a [Z];
    - a Go [error] result is an [option error] ([None] is [nil]); a
      [(value, error)] result is a [result];
    - a [*models.Task] is a location in a heap of task records, so that two
      holders of the same pointer observe each other's registry updates;
    - a Go [map] is a [gmap]; a slice is a [list];
    - the mutex of the registry makes each registry method one atomic state
      transformer; goroutines are interleavings of such atomic steps. *)

From Stdlib Require Import ZArith DecimalString DecimalZ Ascii.
From stdpp Require Import gmap strings list fin_maps.

(** ** Package [errs] *)

Module errs.

(** The four sentinel errors, and [fmt.Errorf("%w...", e, ...)] wrapping. *)
Inductive error : Type :=
| ErrTaskNotFound
| ErrMaxTasksReached
| ErrMaxObjectsReached
| ErrInvalidFileType
| Errorf_w (e : error) (rest : string).

#[global] Instance error_eq_dec : EqDecision error.
Proof. solve_decision. Defined.

(** [err.Error()] *)
Fixpoint Error (e : error) : string :=
  match e with
  | ErrTaskNotFound => "task not found"
  | ErrMaxTasksReached => "server is busy (max tasks limit)"
  | ErrMaxObjectsReached => "maximum objects per task reached"
  | ErrInvalidFileType => "invalid file type (allowed: .pdf, .jpeg)"
  | Errorf_w e rest => Error e +:+ rest
  end.

(** [errors.Is(err, target)] for a sentinel [target] *)
Fixpoint Is (e target : error) : bool :=
  if bool_decide (e = target) then true
  else match e with
       | Errorf_w e' _ => Is e' target
       | _ => false
       end.

End errs.

(** ** Go standard-library functions used by the validator *)

Module gostd.

(** [os.IsPathSeparator] on Unix *)
Definition IsPathSeparator (c : ascii) : bool := Ascii.eqb c "/".

(** The loop of [filepath.Ext]:
    [for i := len(path)-1; i >= 0 && !os.IsPathSeparator(path[i]); i--]
    with [n = i + 1]. *)
Fixpoint ext_scan (path : string) (n : nat) : string :=
  match n with
  | O => EmptyString
  | S i =>
      match String.get i path with
      | Some c =>
          if IsPathSeparator c then EmptyString
          else if Ascii.eqb c "." then
                 String.substring i (String.length path - i) path
               else ext_scan path i
      | None => EmptyString
      end
  end.

Definition Ext (path : string) : string :=
  ext_scan path (String.length path).

(** The characters the scan of [filepath.Ext] passes over. *)
Definition plain_char (c : ascii) : Prop := c ≠ "."%char ∧ c ≠ "/"%char.

(** [strings.ToLower], on the ASCII letters. The library function also
    lowers letters outside ASCII; none of them is lowered to an ASCII
    character of an allowed extension, so membership of the lowered
    extension in the allowed set is the same. *)
Definition lower_ascii (c : ascii) : ascii :=
  let n := nat_of_ascii c in
  if (65 <=? n) && (n <=? 90) then ascii_of_nat (n + 32) else c.

Fixpoint ToLower (s : string) : string :=
  match s with
  | EmptyString => EmptyString
  | String c rest => String (lower_ascii c) (ToLower rest)
  end.

(** [fmt.Sprintf("%d", n)] *)
Definition Sprintf_d (n : Z) : string :=
  NilZero.string_of_int (Z.to_int n).

(** 64-bit two's-complement wrap-around of Go's [int] arithmetic. *)
Definition min_int : Z := - 2 ^ 63.
Definition max_int : Z := 2 ^ 63 - 1.
Definition wrap_int (z : Z) : Z := ((z + 2 ^ 63) mod 2 ^ 64 - 2 ^ 63)%Z.
Definition in_int (z : Z) : Prop := (min_int <= z <= max_int)%Z.

End gostd.

(** ** Package [validate] *)

Module validate.
Import errs gostd.

Definition maxObjectsPerTask : Z := 3.

Definition allowedExtensions : gmap string bool :=
  <[".pdf" := true]> (<[".jpeg" := true]> (<[".jpg" := true]> ∅)).

Definition ValidateObjectLimit (currentObjects : Z) : option error :=
  if (currentObjects >=? maxObjectsPerTask)%Z then Some ErrMaxObjectsReached
  else None.

Definition ValidateFileExtension (url : string) : option error :=
  let ext := ToLower (Ext url) in
  match allowedExtensions !! ext with
  | Some _ => None
  | None => Some ErrInvalidFileType
  end.

End validate.

(** ** Package [models] *)

Module models.

(** [type TaskStatus string] with its four constants. *)
Definition TaskStatus : Type := string.
Definition StatusWaiting : TaskStatus := "waiting".
Definition StatusProcessing : TaskStatus := "processing".
Definition StatusDone : TaskStatus := "done".
Definition StatusFailed : TaskStatus := "failed".

Record Object : Type := mkObject {
  ObjectID : Z;
  URL : string;
  ObjectError : string
}.

Record Task : Type := mkTask {
  ID : Z;
  Status : TaskStatus;
  Objects : list Object;
  CreatedAt : Z
}.


Record MultiAddResult : Type := mkMultiAddResult {
  AddedCount : Z;
  FailedURLs : gmap string string;
  TotalObjects : Z
}.

Definition set_Status (s : TaskStatus) (t : Task) : Task :=
  mkTask (ID t) s (Objects t) (CreatedAt t).

Definition set_Objects (os : list Object) (t : Task) : Task :=
  mkTask (ID t) (Status t) os (CreatedAt t).

(** The zero value of [Task]. *)
Definition zeroTask : Task := mkTask 0 EmptyString [] 0.

End models.

(** ** Package [repository] *)

Module repository.
Import errs gostd validate models.

(** A [*models.Task]. *)
Definition loc : Type := nat.

(** A [(T, error)] result. *)
Inductive result (A : Type) : Type :=
| Ok (a : A)
| Err (e : error).
Arguments Ok {A} a.
Arguments Err {A} e.

(** [TaskRepository]. The field [heap] holds the task records the
    pointers of [tasks] refer to; the mutex is the atomicity of the
    functions below. *)
Record TaskRepository : Type := mkRepo {
  heap : list Task;
  tasks : gmap Z loc;
  activeTasks : Z;
  maxTasks : Z
}.

(** Reading and writing through a pointer. Every pointer of a registry
    built by the functions below lies in the heap ([repo_wf_run]); outside
    it a read gives the zero value and a write does nothing. *)
Definition load (l : loc) (r : TaskRepository) : Task :=
  default zeroTask (heap r !! l).

Definition store (l : loc) (t : Task) (r : TaskRepository) : TaskRepository :=
  mkRepo (<[l := t]> (heap r)) (tasks r) (activeTasks r) (maxTasks r).

Definition CreateTaskRepository (maxTasks : Z) : TaskRepository :=
  mkRepo [] ∅ 0 maxTasks.

(** [CreateTask]; [unix_nano] and [now] are the two readings of
    [time.Now()] the call makes. *)
Definition CreateTask (unix_nano now : Z) (r : TaskRepository)
  : result loc * TaskRepository :=
  if (activeTasks r >=? maxTasks r)%Z then
    (Err (Errorf_w ErrMaxTasksReached
            (": current " +:+ Sprintf_d (activeTasks r) +:+
             ", max " +:+ Sprintf_d (maxTasks r))), r)
  else
    let task := mkTask unix_nano StatusWaiting [] now in
    let l := length (heap r) in
    (Ok l, mkRepo (heap r ++ [task]) (<[unix_nano := l]> (tasks r))
                  (wrap_int (activeTasks r + 1)) (maxTasks r)).

Definition GetTask (id : Z) (r : TaskRepository) : result loc :=
  match tasks r !! id with
  | None => Err ErrTaskNotFound
  | Some l => Ok l
  end.

(** [AddObject]; [unix_nano] is the clock reading that becomes the
    identifier of the new object. *)
Definition AddObject (taskID : Z) (url : string) (unix_nano : Z)
    (r : TaskRepository) : result loc * TaskRepository :=
  match tasks r !! taskID with
  | None => (Err ErrTaskNotFound, r)
  | Some l =>
      let task := load l r in
      match ValidateObjectLimit (Z.of_nat (length (Objects task))) with
      | Some err => (Err err, r)
      | None =>
          match ValidateFileExtension url with
          | Some err => (Err err, r)
          | None =>
              let object := mkObject unix_nano url EmptyString in
              (Ok l, store l (set_Objects (Objects task ++ [object]) task) r)
          end
      end
  end.

Definition UpdateTaskStatus (id : Z) (status : TaskStatus)
    (r : TaskRepository) : option error * TaskRepository :=
  match tasks r !! id with
  | None => (Some ErrTaskNotFound, r)
  | Some l =>
      let task := load l r in
      let oldStatus := Status task in
      let r1 := store l (set_Status status task) r in
      if (String.eqb status StatusDone || String.eqb status StatusFailed) &&
         (String.eqb oldStatus StatusWaiting ||
          String.eqb oldStatus StatusProcessing)
      then (None, mkRepo (heap r1) (tasks r1)
                         (wrap_int (activeTasks r1 - 1)) (maxTasks r1))
      else (None, r1)
  end.

(** [GetAllTasks]: the pointers held by the map, in the order the
    iteration over the map yields them. *)
Definition GetAllTasks (r : TaskRepository) : list loc :=
  (map_to_list (tasks r)).*2.

Definition GetMaxTasks (r : TaskRepository) : Z := maxTasks r.
Definition GetActiveTasksCount (r : TaskRepository) : Z := activeTasks r.

(** Calls of the registry, with the clock readings they observe, and
    their effect on the registry. *)
Inductive op : Type :=
| OpCreateTask (unix_nano now : Z)
| OpGetTask (id : Z)
| OpAddObject (taskID : Z) (url : string) (unix_nano : Z)
| OpUpdateTaskStatus (id : Z) (status : TaskStatus)
| OpGetAllTasks.

Definition step (o : op) (r : TaskRepository) : TaskRepository :=
  match o with
  | OpCreateTask unix_nano now => (CreateTask unix_nano now r).2
  | OpGetTask _ => r
  | OpAddObject taskID url unix_nano => (AddObject taskID url unix_nano r).2
  | OpUpdateTaskStatus id status => (UpdateTaskStatus id status r).2
  | OpGetAllTasks => r
  end.

Definition run (ops : list op) (r : TaskRepository) : TaskRepository :=
  foldl (fun r o => step o r) r ops.

(** What a caller reads through the pointer of task [id]. *)
Definition task_of (id : Z) (r : TaskRepository) : option Task :=
  match tasks r !! id with
  | None => None
  | Some l => Some (load l r)
  end.

End repository.

(** ** Package [usecase] *)

Module usecase.
Import errs gostd models repository.

(** An [*http.Response], as far as it is read. *)
Record Response : Type := mkResponse { StatusCode : Z; Body : string }.

(** What lies outside the program during one run of [ProcessTask]: the
    path functions of the standard library, whether [os.Create]
    succeeds on a path, what [http.Get] answers for a URL ([None]: the
    request fails), whether [zipWriter.Create] succeeds for an entry
    name, and what [io.Copy] writes for an entry and whether it
    succeeds. *)
Record Platform : Type := mkPlatform {
  filepath_Join : string → string → string;
  filepath_Base : string → string;
  os_Create : string → bool;
  http_Get : string → option Response;
  zip_Create : string → bool;
  io_Copy : string → string → string * bool
}.

(** An archive: its entries, by name, with the bytes written. *)
Definition Archive : Type := list (string * string).

(** The registry, the files of the storage directory, and the task ids
    for which [go u.ProcessTask(ctx, id)] was executed. *)
Record World : Type := mkWorld {
  repo : TaskRepository;
  files : gmap string Archive;
  spawned : list Z
}.

Definition set_repo (r : TaskRepository) (w : World) : World :=
  mkWorld r (files w) (spawned w).

Record TaskUsecase : Type := mkUsecase { storagePath : string }.

Definition CreateTaskUsecase (storagePath : string) : TaskUsecase :=
  mkUsecase (if String.eqb storagePath EmptyString then "./storage" else storagePath).

Definition CreateTask (unix_nano now : Z) (w : World) : result loc * World :=
  match repository.CreateTask unix_nano now (repo w) with
  | (Err err, r) => (Err err, set_repo r w)
  | (Ok task, r) => (Ok task, set_repo r w)
  end.

Definition GetTask (id : Z) (w : World) : result loc :=
  repository.GetTask id (repo w).

(** The statement [if len(task.Objects) == 3 { go u.ProcessTask(ctx, task.ID) }],
    which reads the task through the pointer the registry returned. *)
Definition AddObject_trigger (task : loc) (w : World) : World :=
  if length (Objects (load task (repo w))) =? 3
  then mkWorld (repo w) (files w) (spawned w ++ [ID (load task (repo w))])
  else w.

Definition AddObject (taskID : Z) (url : string) (unix_nano : Z) (w : World)
  : result loc * World :=
  match repository.AddObject taskID url unix_nano (repo w) with
  | (Err err, r) => (Err err, set_repo r w)
  | (Ok task, r) => (Ok task, AddObject_trigger task (set_repo r w))
  end.

(** One iteration of the loop over [task.Objects]: the archive written
    so far and [successCount]. *)
Definition archive_object (p : Platform) (acc : Archive * nat) (obj : Object)
  : Archive * nat :=
  match http_Get p (URL obj) with
  | None => acc
  | Some resp =>
      if negb (StatusCode resp =? 200)%Z then acc
      else
        let fileName := filepath_Base p (URL obj) in
        if negb (zip_Create p fileName) then acc
        else
          let zip := acc.1 ++ [(fileName, (io_Copy p fileName (Body resp)).1)] in
          if (io_Copy p fileName (Body resp)).2 then (zip, S acc.2)
          else (zip, acc.2)
  end.

Definition zipPath (p : Platform) (u : TaskUsecase) (taskID : Z) : string :=
  filepath_Join p (storagePath u) ("task_" +:+ Sprintf_d taskID +:+ ".zip").

(** [ProcessTask]. [os.Remove] unlinks the file; the deferred
    [zipWriter.Close] and [zipFile.Close] put the archive into the file
    when it was not removed. *)
Definition ProcessTask (p : Platform) (u : TaskUsecase) (taskID : Z)
    (w : World) : World :=
  match UpdateTaskStatus taskID StatusProcessing (repo w) with
  | (Some _, r1) => set_repo r1 w
  | (None, r1) =>
      match repository.GetTask taskID r1 with
      | Err _ => set_repo r1 w
      | Ok task =>
          let path := zipPath p u taskID in
          if negb (os_Create p path) then
            set_repo (UpdateTaskStatus taskID StatusFailed r1).2 w
          else
            let out := foldl (archive_object p) ([], 0) (Objects (load task r1)) in
            if out.2 =? 0 then
              mkWorld (UpdateTaskStatus taskID StatusFailed r1).2
                      (delete path (files w)) (spawned w)
            else
              mkWorld (UpdateTaskStatus taskID StatusDone r1).2
                      (<[path := out.1]> (files w)) (spawned w)
      end
  end.

Definition GetTaskStatus (id : Z) (w : World) : result loc :=
  repository.GetTask id (repo w).

Definition GetAllTasks (w : World) : list loc :=
  repository.GetAllTasks (repo w).

Definition GetMaxTasks (w : World) : Z := repository.GetMaxTasks (repo w).
Definition GetActiveTasksCount (w : World) : Z :=
  repository.GetActiveTasksCount (repo w).

(** *** Concurrent calls of [AddObject]

    A call of [AddObject] running in its own goroutine makes two steps:
    the registry call, atomic under the registry's mutex, and then, with
    the mutex released, the length test and the [go] statement. *)
Inductive call : Type :=
| Calling (taskID : Z) (url : string) (unix_nano : Z)
| Appended (task : loc)
| Returned (res : result loc).

Definition call_step (c : call) (w : World) : call * World :=
  match c with
  | Calling taskID url unix_nano =>
      match repository.AddObject taskID url unix_nano (repo w) with
      | (Err err, r) => (Returned (Err err), set_repo r w)
      | (Ok task, r) => (Appended task, set_repo r w)
      end
  | Appended task => (Returned (Ok task), AddObject_trigger task w)
  | Returned res => (Returned res, w)
  end.

(** A schedule names, step by step, the goroutine that moves. *)
Fixpoint interleave (sched : list nat) (cs : list call) (w : World)
  : list call * World :=
  match sched with
  | [] => (cs, w)
  | i :: sched' =>
      match cs !! i with
      | None => interleave sched' cs w
      | Some c =>
          interleave sched' (<[i := (call_step c w).1]> cs) (call_step c w).2
      end
  end.

End usecase.

(** ** Package [delivery] *)

Module delivery.
Import errs gostd models repository usecase.

(** What a handler writes: a JSON body with its status code, or the
    [BadResponse] of [responses.DoBadResponseAndLog]. *)
Inductive response : Type :=
| JSONResponse (code : Z) (result : MultiAddResult)
| BadResponse (code : Z) (text : string).

Definition ResponseErrorAndLog (err : error) : response :=
  if Is err ErrTaskNotFound then BadResponse 404 "task not found"
  else if Is err ErrMaxTasksReached then BadResponse 429 "server is busy"
  else if Is err ErrMaxObjectsReached then BadResponse 400 "maximum objects reached"
  else if Is err ErrInvalidFileType then BadResponse 400 "invalid file type"
  else BadResponse 500 "internal error".


Definition call_all (taskID : Z) (cs : list (string * Z)) (w : World)
  : list (string * option error) * World :=
  foldl (fun acc c =>
           match usecase.AddObject taskID c.1 c.2 acc.2 with
           | (Err err, w') => (acc.1 ++ [(c.1, Some err)], w')
           | (Ok _, w') => (acc.1 ++ [(c.1, None)], w')
           end)
        ([], w) cs.



End delivery.

(** ** Vocabulary of the specification *)

Module spec.
Import errs gostd models repository usecase.

(** The terminal statuses, and the statuses counted as active. *)
Definition is_terminal (s : TaskStatus) : bool :=
  String.eqb s StatusDone || String.eqb s StatusFailed.

Definition is_active (s : TaskStatus) : bool :=
  String.eqb s StatusWaiting || String.eqb s StatusProcessing.

(** The number of task records whose status is active. *)
Fixpoint count_active (h : list Task) : nat :=
  match h with
  | [] => 0
  | t :: h' => (if is_active (Status t) then 1 else 0) + count_active h'
  end.

(** A call that sets an active status on a task whose status is not
    active, and the runs that make no such call. *)
Definition reactivates (o : op) (r : TaskRepository) : bool :=
  match o with
  | OpUpdateTaskStatus id s =>
      match task_of id r with
      | Some t => is_active s && negb (is_active (Status t))
      | None => false
      end
  | _ => false
  end.

Fixpoint no_reactivation (ops : list op) (r : TaskRepository) : bool :=
  match ops with
  | [] => true
  | o :: ops' => negb (reactivates o r) && no_reactivation ops' (step o r)
  end.

(** A call that may take task [id] out of a terminal status: a status
    update of [id] to a status that is not terminal, or a creation that
    issues [id] again. *)
Definition may_regress (id : Z) (o : op) : bool :=
  match o with
  | OpUpdateTaskStatus id' s => bool_decide (id' = id) && negb (is_terminal s)
  | OpCreateTask unix_nano _ => bool_decide (unix_nano = id)
  | _ => false
  end.

(** The ids issued by the creations of a run that succeed. *)
Fixpoint issued_ids (ops : list op) (r : TaskRepository) : list Z :=
  match ops with
  | [] => []
  | o :: ops' =>
      match o with
      | OpCreateTask unix_nano now =>
          match (repository.CreateTask unix_nano now r).1 with
          | Ok l => [ID (load l (step o r))]
          | Err _ => []
          end
      | _ => []
      end ++ issued_ids ops' (step o r)
  end.

(** A reference is successfully fetched when the download answers 200,
    the archive entry is created and the payload is copied into it. *)
Definition fetched (p : Platform) (obj : Object) : bool :=
  match http_Get p (URL obj) with
  | None => false
  | Some resp =>
      (StatusCode resp =? 200)%Z &&
      zip_Create p (filepath_Base p (URL obj)) &&
      (io_Copy p (filepath_Base p (URL obj)) (Body resp)).2
  end.

(** Pointers of the registry's map are valid and pairwise distinct, and
    a task is stored under its own id. *)
Definition repo_wf (r : TaskRepository) : Prop :=
  (∀ id l, tasks r !! id = Some l → l < length (heap r)) ∧
  (∀ id1 id2 l, tasks r !! id1 = Some l → tasks r !! id2 = Some l → id1 = id2) ∧
  (∀ id l, tasks r !! id = Some l → ID (load l r) = id).

End spec.

(** ** Package [delivery]: the handlers beside [AddObjects]

    Each handler is modelled from the point where the task id of the
    route has been parsed. *)

Module handlers.
Import errs gostd models repository usecase delivery.

(** [models.TaskResponse], an entry of the task listing. *)
Record TaskResponse : Type := mkTaskResponse {
  TaskResponse_ID : Z;
  TaskResponse_Status : TaskStatus;
  TaskResponse_CreatedAt : Z;
  ObjectsCount : Z
}.

(** What a handler writes: the JSON bodies passed to
    [responses.DoJSONResponse] with their status code, the archive
    handed to [http.ServeFile] with the two headers set before it, or
    one of the responses of [AddObjects]. In [StatusJSON] the field
    [zip_url] is [None] when [omitempty] leaves it out. *)
Inductive reply : Type :=
| TaskJSON (code : Z) (task : Task)
| BusyJSON (code : Z) (error : string) (max_tasks active_now : Z)
           (suggestion : string)
| StatusJSON (code : Z) (status : TaskStatus) (zip_url : option string)
| NoTasksJSON (code : Z) (message suggestion : string) (count : Z)
| TasksJSON (code : Z) (count : Z) (tasks : list TaskResponse)
| ServedFile (content_type content_disposition : string) (body : Archive)
| Written (r : response).

(** [strconv.FormatInt(n, 10)] *)
Definition FormatInt (n : Z) : string := Sprintf_d n.

Definition CreateTask (unix_nano now : Z) (w : World) : reply * World :=
  match usecase.CreateTask unix_nano now w with
  | (Err err, w') =>
      if Is err ErrMaxTasksReached then
        (BusyJSON 429 (Error err) (usecase.GetMaxTasks w')
           (usecase.GetActiveTasksCount w')
           "Try again later or wait for current tasks to complete", w')
      else (Written (ResponseErrorAndLog err), w')
  | (Ok task, w') => (TaskJSON 201 (load task (repo w')), w')
  end.

Definition GetTask (taskID : Z) (w : World) : reply :=
  match usecase.GetTask taskID w with
  | Err err => Written (ResponseErrorAndLog err)
  | Ok task => TaskJSON 200 (load task (repo w))
  end.

Definition GetTaskStatus (taskID : Z) (w : World) : reply :=
  match usecase.GetTaskStatus taskID w with
  | Err err => Written (ResponseErrorAndLog err)
  | Ok task =>
      let status := Status (load task (repo w)) in
      StatusJSON 200 status
        (if String.eqb status StatusDone
         then Some ("/download/" +:+ FormatInt taskID)
         else None)
  end.

(** [DownloadArchive]; [os.Stat] finds the archive when the storage
    directory holds a file at the path. *)
Definition DownloadArchive (taskID : Z) (w : World) : reply :=
  match usecase.GetTask taskID w with
  | Err err => Written (ResponseErrorAndLog err)
  | Ok task =>
      if negb (String.eqb (Status (load task (repo w))) StatusDone) then
        Written (BadResponse 404 "archive not ready")
      else
        let zipPath := "./storage/task_" +:+ Sprintf_d taskID +:+ ".zip" in
        match files w !! zipPath with
        | None => Written (BadResponse 500 "archive file missing")
        | Some body =>
            ServedFile "application/zip"
              ("attachment; filename=task_" +:+ Sprintf_d taskID +:+ ".zip")
              body
        end
  end.

Definition GetAllTasks (w : World) : reply :=
  let tasks := usecase.GetAllTasks w in
  if length tasks =? 0 then
    NoTasksJSON 200 "No tasks found"
      "Create a new task with POST /api/v1/tasks" 0
  else
    let response :=
      foldl (fun response task =>
               response ++
               [mkTaskResponse (ID (load task (repo w)))
                  (Status (load task (repo w)))
                  (CreatedAt (load task (repo w)))
                  (Z.of_nat (length (Objects (load task (repo w)))))])
            [] tasks in
    TasksJSON 200 (Z.of_nat (length response)) response.

End handlers.

(** ** Package [config] *)

Module config.

Record Config : Type := mkConfig {
  LogMode : string;
  ServerPort : string;
  MaxActiveTasks : Z
}.

(** The environment of the process. *)
Definition Environ : Type := gmap string string.

(** [os.LookupEnv] and [os.Getenv] *)
Definition LookupEnv (env : Environ) (key : string) : string * bool :=
  match env !! key with
  | Some value => (value, true)
  | None => (EmptyString, false)
  end.

Definition Getenv (env : Environ) (key : string) : string :=
  (LookupEnv env key).1.

(** [fmt.Sprintf("%v", l)] for a [[]string] *)
Definition Sprintf_v (l : list string) : string :=
  "[" +:+ String.concat " " l +:+ "]".

(** The two library calls of [LoadConfig]: [godotenv.Load] on a file
    name, giving its error, if any, and the environment it leaves; and
    [strconv.ParseInt(s, 10, 32)], giving its value and whether it
    reports an error. An [error] of this package is its message. *)
Record Library : Type := mkLibrary {
  godotenv_Load : string → Environ → option string * Environ;
  strconv_ParseInt : string → Z * bool
}.

Definition checkEnv (env : Environ) (envVars : list string) : option string :=
  let missingVars :=
    foldl (fun missingVars envVar =>
             if negb (LookupEnv env envVar).2 ||
                String.eqb (LookupEnv env envVar).1 EmptyString
             then missingVars ++ [envVar]
             else missingVars)
          [] envVars in
  if 0 <? length missingVars then
    Some ("error: this env vars are missing: " +:+ Sprintf_v missingVars)
  else None.

Definition validateEnv (env : Environ) : option string :=
  match checkEnv env ["LOG_MODE"; "SERVER_PORT"; "MAX_ACTIVE_TASKS"] with
  | Some err => Some err
  | None => None
  end.

(** [stringToInt]: the error of [strconv.ParseInt] is dropped. *)
Definition stringToInt (lib : Library) (s : string) : Z :=
  (strconv_ParseInt lib s).1.

Definition LoadConfig (lib : Library) (envFile : string) (env : Environ)
  : Config + string :=
  match godotenv_Load lib envFile env with
  | (Some err, _) => inr ("load configuration file: " +:+ err)
  | (None, env') =>
      match validateEnv env' with
      | Some err => inr ("LoadConfig: " +:+ err)
      | None =>
          inl (mkConfig (Getenv env' "LOG_MODE") (Getenv env' "SERVER_PORT")
                 (stringToInt lib (Getenv env' "MAX_ACTIVE_TASKS")))
      end
  end.

End config.

(** ** Further vocabulary, for the properties beyond the specification *)

Module observe.
Import errs gostd models repository usecase spec.

(** The sentinel error at the bottom of a chain of wrappings. *)
Fixpoint root (e : error) : error :=
  match e with
  | Errorf_w e' _ => root e'
  | _ => e
  end.

(** The file name [ProcessTask] gives the archive of a task. *)
Definition zipName (taskID : Z) : string :=
  "task_" +:+ Sprintf_d taskID +:+ ".zip".

(** A run of creations, one per pair of clock readings. *)
Definition creations (clock : list (Z * Z)) : list op :=
  map (fun c => OpCreateTask c.1 c.2) clock.

(** The calls whose status, if any, is one of the four constants. *)
Definition known_status (o : op) : bool :=
  match o with
  | OpUpdateTaskStatus _ s => is_active s || is_terminal s
  | _ => true
  end.

(** The tasks of the listing whose status is active. *)
Definition listed_active (r : TaskRepository) : list loc :=
  filter (fun l => is_active (Status (load l r)) = true)
         (repository.GetAllTasks r).

(** What [AddObject] lets a task hold: at most three objects, each with
    a URL the extension check passes. *)
Definition admissible (t : Task) : Prop :=
  (length (Objects t) ≤ 3)%nat ∧
  Forall (fun o => validate.ValidateFileExtension (URL o) = None) (Objects t).

(** The ids of the tasks [GetAllTasks] lists. *)
Definition listed_ids (r : TaskRepository) : list Z :=
  (fun l => ID (load l r)) <$> repository.GetAllTasks r.

(** A variable [checkEnv] reports: not set, or set to the empty string. *)
Definition is_missing (env : config.Environ) (envVar : string) : bool :=
  match env !! envVar with
  | Some value => String.eqb value EmptyString
  | None => true
  end.

End observe.

(** * Properties *)

Import errs gostd validate models repository spec.

(** * The validator *)

Section StringFacts.

Lemma string_app_cons (c : ascii) (s t : string) : String c s +:+ t = String c (s +:+ t).
Proof. reflexivity. Qed.

Lemma string_app_nil (t : string) : EmptyString +:+ t = t.
Proof. reflexivity. Qed.

Lemma string_get_app_r (pre s : string) (k : nat) :
  String.get (String.length pre + k) (pre +:+ s) = String.get k s.
Proof.
  induction pre as [|c pre IH]; [done|]. rewrite string_app_cons. exact IH.
Qed.

Lemma string_substring_app_r (pre s : string) (k n : nat) :
  String.substring (String.length pre + k) n (pre +:+ s) = String.substring k n s.
Proof.
  induction pre as [|c pre IH]; [done|]. rewrite string_app_cons. exact IH.
Qed.

Lemma string_substring_all (s : string) : String.substring 0 (String.length s) s = s.
Proof. induction s as [|c s IH]; simpl; [done|]. by rewrite IH. Qed.

Lemma string_app_empty_r (s : string) : s +:+ EmptyString = s.
Proof. induction s as [|c s IH]; [done|]. by rewrite string_app_cons, IH. Qed.

Lemma string_length_app (s t : string) :
  String.length (s +:+ t) = String.length s + String.length t.
Proof. induction s as [|c s IH]; [done|]. rewrite string_app_cons. simpl. by rewrite IH. Qed.

Lemma string_app_assoc (s t u : string) : s +:+ (t +:+ u) = (s +:+ t) +:+ u.
Proof. induction s as [|c s IH]; [done|]. by rewrite !string_app_cons, IH. Qed.

Lemma string_split_at (s : string) (i : nat) :
  i ≤ String.length s →
  s = String.substring 0 i s +:+ String.substring i (String.length s - i) s.
Proof.
  revert i. induction s as [|c s IH]; intros [|i] Hi; simpl in *.
  - done.
  - lia.
  - rewrite string_app_nil. by rewrite string_substring_all.
  - rewrite string_app_cons. f_equal. apply IH. lia.
Qed.

Lemma string_get_lt (s : string) (i : nat) (c : ascii) :
  String.get i s = Some c → i < String.length s.
Proof.
  revert i. induction s as [|d s IH]; intros [|i]; simpl; try done; try lia.
  intros H. apply IH in H. lia.
Qed.

Lemma string_get_is_Some (s : string) (i : nat) :
  i < String.length s → is_Some (String.get i s).
Proof.
  revert i. induction s as [|d s IH]; intros [|i]; simpl; try lia.
  - by eexists.
  - intros H. apply IH. lia.
Qed.

Lemma get_ToLower (s : string) (k : nat) (c : ascii) :
  String.get k s = Some c → String.get k (ToLower s) = Some (lower_ascii c).
Proof.
  revert k. induction s as [|d s IH]; intros [|k]; simpl; try done.
  - by intros [= ->].
  - apply IH.
Qed.

Lemma lower_ascii_dot (c : ascii) : c = "."%char → lower_ascii c = "."%char.
Proof. by intros ->. Qed.

Lemma lower_ascii_sep (c : ascii) : c = "/"%char → lower_ascii c = "/"%char.
Proof. by intros ->. Qed.

End StringFacts.

Lemma ext_scan_skip (path : string) (m k : nat) :
  (∀ j c, m ≤ j < m + k → String.get j path = Some c → plain_char c) →
  m + k ≤ String.length path →
  ext_scan path (m + k) = ext_scan path m.
Proof.
  induction k as [|k IH]; intros Hplain Hlen.
  - by rewrite Nat.add_0_r.
  - replace (m + S k) with (S (m + k)) by lia. simpl.
    destruct (String.get (m + k) path) as [c|] eqn:Hget.
    + destruct (Hplain (m + k) c ltac:(lia) Hget) as [Hdot Hsep].
      unfold IsPathSeparator.
      destruct (Ascii.eqb_spec c "/"); [done|].
      destruct (Ascii.eqb_spec c "."); [done|].
      apply IH; [|lia]. intros j d Hj. apply Hplain. lia.
    + destruct (string_get_is_Some path (m + k)) as [c Hc]; [lia|congruence].
Qed.

Lemma Ext_dot_plain (pre rest : string) :
  (∀ k c, String.get k rest = Some c → plain_char c) →
  Ext (pre +:+ String "." rest) = String "." rest.
Proof.
  intros Hplain. unfold Ext.
  rewrite string_length_app. simpl String.length.
  replace (String.length pre + S (String.length rest))
    with (S (String.length pre) + String.length rest) by lia.
  rewrite ext_scan_skip.
  - simpl.
    pose proof (string_get_app_r pre (String "." rest) 0) as Hg.
    rewrite Nat.add_0_r in Hg. rewrite Hg. simpl.
    pose proof (string_substring_app_r pre (String "." rest) 0
                  (String.length (String "." rest))) as Hs.
    rewrite Nat.add_0_r in Hs.
    rewrite string_length_app.
    replace (String.length pre + String.length (String "." rest) - String.length pre)
      with (String.length (String "." rest)) by lia.
    rewrite Hs. apply string_substring_all.
  - intros j c Hj Hget.
    replace j with (String.length pre + S (j - S (String.length pre))) in Hget by lia.
    rewrite string_get_app_r in Hget. simpl in Hget. by eapply Hplain.
  - rewrite string_length_app. simpl. lia.
Qed.

Lemma ext_scan_suffix (path : string) (n : nat) :
  ∃ pre, path = pre +:+ ext_scan path n.
Proof.
  induction n as [|i IH]; simpl.
  - exists path. by rewrite string_app_empty_r.
  - destruct (String.get i path) as [c|] eqn:Hget.
    + destruct (IsPathSeparator c); [exists path; by rewrite string_app_empty_r|].
      destruct (Ascii.eqb c "."); [|done].
      exists (String.substring 0 i path). apply string_split_at.
      apply string_get_lt in Hget. lia.
    + exists path. by rewrite string_app_empty_r.
Qed.

Lemma allowedExtensions_lookup (ext : string) :
  is_Some (allowedExtensions !! ext) ↔ ext ∈ [".pdf"; ".jpeg"; ".jpg"].
Proof.
  unfold allowedExtensions. rewrite !lookup_insert, lookup_empty.
  rewrite !elem_of_cons, elem_of_nil.
  repeat case_decide; subst; split; intros Hx;
    try (by eexists); try tauto.
  - destruct Hx as [b Hb]. discriminate.
  - destruct Hx as [?|[?|[?|[]]]]; congruence.
Qed.

Lemma allowed_shape (ext : string) :
  ToLower ext ∈ [".pdf"; ".jpeg"; ".jpg"] →
  ∃ rest, ext = String "." rest ∧ (∀ k c, String.get k rest = Some c → plain_char c).
Proof.
  intros Hin.
  rewrite !elem_of_cons, elem_of_nil in Hin.
  destruct ext as [|c0 rest]; [simpl in Hin; destruct Hin as [E|[E|[E|[]]]]; discriminate|].
  assert (lower_ascii c0 = "."%char ∧
          (ToLower rest = "pdf" ∨ ToLower rest = "jpeg" ∨ ToLower rest = "jpg"))
    as [H0 Hrest].
  { simpl in Hin. destruct Hin as [E|[E|[E|[]]]]; injection E as E0 E1; auto. }
  assert (c0 = "."%char) as ->.
  { revert H0. clear. destruct c0 as [[] [] [] [] [] [] [] []]; vm_compute; congruence. }
  exists rest. split; [done|].
  intros k c Hget. apply get_ToLower in Hget.
  assert (lower_ascii c ≠ "."%char ∧ lower_ascii c ≠ "/"%char) as [Hd Hs].
  { clear -Hget Hrest.
    destruct Hrest as [E|[E|E]]; rewrite E in Hget;
      do 5 (destruct k as [|k]; simpl in Hget; [try (injection Hget as <-; done); try done|]);
      simpl in Hget; done. }
  split; intros ->; [by apply Hd | by apply Hs].
Qed.

(** C4: [ValidateFileExtension] succeeds exactly when the URL, as a whole
    string, ends in a suffix whose lower-case form is [.pdf], [.jpeg] or
    [.jpg]; every other input fails with [ErrInvalidFileType], among them
    the empty string, a name without extension, and any URL ending in
    [document.pdf?token=abc], whose query string is part of the suffix
    inspected. *)
Theorem ValidateFileExtension_suffix (url : string) :
  (ValidateFileExtension url = None ↔
     ∃ pre ext, url = pre +:+ ext ∧ ToLower ext ∈ [".pdf"; ".jpeg"; ".jpg"]) ∧
  (ValidateFileExtension url ≠ None →
     ValidateFileExtension url = Some ErrInvalidFileType) ∧
  ValidateFileExtension EmptyString = Some ErrInvalidFileType ∧
  ValidateFileExtension "README" = Some ErrInvalidFileType ∧
  (∀ pre, ValidateFileExtension (pre +:+ "document.pdf?token=abc")
          = Some ErrInvalidFileType).
Proof.
  split; [|split; [|split; [|split]]].
  - unfold ValidateFileExtension. split.
    + intros H.
      destruct (ext_scan_suffix url (String.length url)) as [pre Hpre].
      exists pre, (Ext url). split; [exact Hpre|].
      apply allowedExtensions_lookup.
      destruct (allowedExtensions !! ToLower (Ext url)); [by eexists|done].
    + intros (pre & ext & -> & Hin).
      destruct (allowed_shape ext Hin) as (rest & -> & Hplain).
      rewrite Ext_dot_plain by done.
      apply allowedExtensions_lookup in Hin. by destruct Hin as [b ->].
  - unfold ValidateFileExtension.
    by destruct (allowedExtensions !! ToLower (Ext url)).
  - by vm_compute.
  - by vm_compute.
  - intros pre. unfold ValidateFileExtension.
    replace (pre +:+ "document.pdf?token=abc")
      with ((pre +:+ "document") +:+ String "." "pdf?token=abc")
      by (by rewrite <- string_app_assoc).
    rewrite Ext_dot_plain.
    + by vm_compute.
    + intros k c Hget.
      do 14 (destruct k as [|k]; simpl in Hget;
             [try (injection Hget as <-; split; done); try done|]).
      simpl in Hget. done.
Qed.

Lemma ValidateFileExtension_suffix_witness :
  ValidateFileExtension "script.js" ≠ None ∧
  ValidateFileExtension "script.js" = Some ErrInvalidFileType.
Proof.
  assert (ValidateFileExtension "script.js" ≠ None) as Hne
    by (vm_compute; discriminate).
  split; [exact Hne|].
  destruct (ValidateFileExtension_suffix "script.js") as (_ & H & _).
  exact (H Hne).
Defined.

Local Open Scope Z_scope.

(** * The registry *)

Section Arithmetic.

Lemma wrap_int_id (z : Z) : in_int z → wrap_int z = z.
Proof.
  unfold in_int, min_int, max_int, wrap_int. intros [Hlo Hhi].
  rewrite Z.mod_small; lia.
Qed.

Lemma in_int_0 : in_int 0.
Proof. unfold in_int, min_int, max_int. lia. Qed.

End Arithmetic.

Section Statuses.

Lemma terminal_not_active (s : TaskStatus) :
  is_terminal s = true → is_active s = false.
Proof.
  unfold is_terminal, is_active, StatusDone, StatusFailed,
    StatusWaiting, StatusProcessing.
  destruct (String.eqb_spec s "done") as [->|]; [done|].
  destruct (String.eqb_spec s "failed") as [->|]; [done|].
  done.
Qed.

Lemma active_not_terminal (s : TaskStatus) :
  is_active s = true → is_terminal s = false.
Proof.
  intros Ha. destruct (is_terminal s) eqn:Ht; [|done].
  apply terminal_not_active in Ht. congruence.
Qed.

End Statuses.

Section Pointers.

Lemma load_store_eq (l : loc) (t : Task) (r : TaskRepository) :
  (l < length (heap r))%nat → load l (store l t r) = t.
Proof.
  intros Hl. unfold load, store. simpl.
  by rewrite list_lookup_insert_eq.
Qed.

Lemma load_store_ne (l l' : loc) (t : Task) (r : TaskRepository) :
  l ≠ l' → load l' (store l t r) = load l' r.
Proof.
  intros Hl. unfold load, store. simpl.
  by rewrite list_lookup_insert_ne.
Qed.

Lemma load_lookup (l : loc) (t : Task) (r : TaskRepository) :
  heap r !! l = Some t → load l r = t.
Proof. unfold load. by intros ->. Qed.

End Pointers.

(** C6: [CreateTask] fails exactly when the active count has reached the
    maximum, then with [ErrMaxTasksReached] and an unchanged registry;
    when it succeeds the returned task has status waiting, no objects and
    the creation time read from the clock, it is registered under its id,
    and the active count has grown by exactly one. *)
Theorem CreateTask_spec (unix_nano now : Z) (r : TaskRepository) :
  in_int (activeTasks r) → in_int (maxTasks r) →
  ((∃ e, (CreateTask unix_nano now r).1 = Err e) ↔ activeTasks r >= maxTasks r) ∧
  (activeTasks r >= maxTasks r →
     ∃ e, CreateTask unix_nano now r = (Err e, r) ∧ Is e ErrMaxTasksReached = true) ∧
  (∀ l, (CreateTask unix_nano now r).1 = Ok l →
     let r' := (CreateTask unix_nano now r).2 in
     load l r' = mkTask unix_nano StatusWaiting [] now ∧
     tasks r' !! unix_nano = Some l ∧
     task_of unix_nano r' = Some (mkTask unix_nano StatusWaiting [] now) ∧
     activeTasks r' = activeTasks r + 1 ∧
     maxTasks r' = maxTasks r).
Proof.
  intros Ha Hm. unfold CreateTask.
  destruct (Z.geb_spec (activeTasks r) (maxTasks r)) as [Hge|Hlt]; simpl.
  - split; [|split].
    + split; [lia|]. intros _. by eexists.
    + intros _. eexists. split; [done|]. done.
    + intros l [=].
  - assert (load (length (heap r))
              (mkRepo (heap r ++ [mkTask unix_nano StatusWaiting [] now])
                 (<[unix_nano:=length (heap r)]> (tasks r))
                 (wrap_int (activeTasks r + 1)) (maxTasks r))
            = mkTask unix_nano StatusWaiting [] now) as Hload.
    { unfold load. simpl. rewrite lookup_app_r by lia.
      by rewrite Nat.sub_diag. }
    split; [|split].
    + split; [intros [e [=]]|lia].
    + lia.
    + intros l [= <-]. split; [exact Hload|]. split; [apply lookup_insert_eq|].
      split.
      * unfold task_of. simpl. rewrite lookup_insert_eq. by rewrite Hload.
      * split; [|done]. apply wrap_int_id.
        unfold in_int, min_int, max_int in *. lia.
Qed.

Lemma CreateTask_spec_witness :
  let r := CreateTaskRepository 5 in
  in_int (activeTasks r) ∧ in_int (maxTasks r) ∧
  activeTasks (CreateTask 17 18 r).2 = 1.
Proof.
  split; [|split].
  - vm_compute. split; discriminate.
  - vm_compute. split; discriminate.
  - pose proof (CreateTask_spec 17 18 (CreateTaskRepository 5)) as H.
    destruct H as (_ & _ & H).
    + vm_compute. split; discriminate.
    + vm_compute. split; discriminate.
    + destruct (H 0%nat) as (_ & _ & _ & Hact & _); [reflexivity|].
      exact Hact.
Defined.

(** C10: a failing [AddObject] leaves the registry exactly as it was, and
    with it every task's objects and status and the active count; the
    error is one of not-found, maximum-objects and invalid-file-type, and
    the engine's [AddObject] then leaves the whole world as it was. *)
Theorem AddObject_error_unchanged (taskID : Z) (url : string) (unix_nano : Z)
    (r : TaskRepository) (e : error) :
  (AddObject taskID url unix_nano r).1 = Err e →
  (AddObject taskID url unix_nano r).2 = r ∧
  (e = ErrTaskNotFound ∨ e = ErrMaxObjectsReached ∨ e = ErrInvalidFileType) ∧
  (∀ w, usecase.repo w = r →
        usecase.AddObject taskID url unix_nano w = (Err e, w)).
Proof.
  unfold AddObject. intros H.
  assert (∀ w, usecase.repo w = r → usecase.set_repo r w = w) as Hset.
  { intros [r0 f s] <-. reflexivity. }
  destruct (tasks r !! taskID) as [l|] eqn:Hl.
  - unfold ValidateObjectLimit, ValidateFileExtension in *.
    destruct (Z.of_nat (length (Objects (load l r))) >=? maxObjectsPerTask) eqn:Hc.
    + simpl in H. injection H as <-. split; [done|]. split; [auto|].
      intros w Hw. unfold usecase.AddObject, AddObject. rewrite Hw, Hl.
      unfold ValidateObjectLimit. rewrite Hc. by rewrite Hset.
    + destruct (allowedExtensions !! ToLower (Ext url)) eqn:Hx; [done|].
      simpl in H. injection H as <-. split; [done|]. split; [auto|].
      intros w Hw. unfold usecase.AddObject, AddObject. rewrite Hw, Hl.
      unfold ValidateObjectLimit, ValidateFileExtension. rewrite Hc, Hx.
      by rewrite Hset.
  - simpl in H. injection H as <-. split; [done|]. split; [auto|].
    intros w Hw. unfold usecase.AddObject, AddObject. rewrite Hw, Hl.
    by rewrite Hset.
Qed.

Lemma AddObject_error_unchanged_witness :
  (AddObject 7 "a.jpg" 1 (CreateTaskRepository 5)).1 = Err ErrTaskNotFound ∧
  (AddObject 7 "a.jpg" 1 (CreateTaskRepository 5)).2 = CreateTaskRepository 5.
Proof.
  split; [reflexivity|].
  apply (AddObject_error_unchanged 7 "a.jpg" 1 (CreateTaskRepository 5) ErrTaskNotFound).
  reflexivity.
Defined.

Section Validation.

Lemma AddObject_full (taskID : Z) (url : string) (unix_nano : Z)
    (r : TaskRepository) (l : loc) :
  tasks r !! taskID = Some l →
  (3 <= length (Objects (load l r)))%nat →
  AddObject taskID url unix_nano r = (Err ErrMaxObjectsReached, r).
Proof.
  intros Hl Hlen. unfold AddObject. rewrite Hl.
  unfold ValidateObjectLimit, maxObjectsPerTask.
  destruct (Z.geb_spec (Z.of_nat (length (Objects (load l r)))) 3); [done|lia].
Qed.

Lemma AddObject_bad_extension (taskID : Z) (url : string) (unix_nano : Z)
    (r : TaskRepository) (l : loc) :
  tasks r !! taskID = Some l →
  (length (Objects (load l r)) < 3)%nat →
  ValidateFileExtension url ≠ None →
  AddObject taskID url unix_nano r = (Err ErrInvalidFileType, r).
Proof.
  intros Hl Hlen Hext. unfold AddObject. rewrite Hl.
  unfold ValidateObjectLimit, maxObjectsPerTask.
  destruct (Z.geb_spec (Z.of_nat (length (Objects (load l r)))) 3); [lia|].
  unfold ValidateFileExtension in *.
  by destruct (allowedExtensions !! ToLower (Ext url)).
Qed.

End Validation.

(** C5: on a task that holds 3 objects (or more) [AddObject] fails with
    [ErrMaxObjectsReached] whatever the URL and whatever the registry went
    through before, the count being tested first; below the cap a URL
    with an extension that is not allowed fails with
    [ErrInvalidFileType]. *)
Theorem AddObject_count_before_extension (taskID : Z) (url : string)
    (unix_nano : Z) (r : TaskRepository) (l : loc) :
  tasks r !! taskID = Some l →
  ((3 <= length (Objects (load l r)))%nat →
     AddObject taskID url unix_nano r = (Err ErrMaxObjectsReached, r)) ∧
  ((length (Objects (load l r)) < 3)%nat → ValidateFileExtension url ≠ None →
     AddObject taskID url unix_nano r = (Err ErrInvalidFileType, r)).
Proof.
  intros Hl. split.
  - by apply AddObject_full.
  - by apply AddObject_bad_extension.
Qed.

Lemma AddObject_count_before_extension_witness :
  let r := run [OpCreateTask 7 7; OpAddObject 7 "a.jpg" 8;
                OpAddObject 7 "b.pdf" 9; OpAddObject 7 "c.jpeg" 10]
               (CreateTaskRepository 5) in
  tasks r !! 7 = Some 0%nat ∧
  AddObject 7 "d.docx" 11 r = (Err ErrMaxObjectsReached, r) ∧
  AddObject 7 "e.pdf" 12 r = (Err ErrMaxObjectsReached, r).
Proof.
  split; [reflexivity|]. split.
  - apply (AddObject_count_before_extension 7 "d.docx" 11
             (run [OpCreateTask 7 7; OpAddObject 7 "a.jpg" 8;
                   OpAddObject 7 "b.pdf" 9; OpAddObject 7 "c.jpeg" 10]
                  (CreateTaskRepository 5)) 0%nat); [reflexivity|].
    vm_compute. lia.
  - apply (AddObject_count_before_extension 7 "e.pdf" 12
             (run [OpCreateTask 7 7; OpAddObject 7 "a.jpg" 8;
                   OpAddObject 7 "b.pdf" 9; OpAddObject 7 "c.jpeg" 10]
                  (CreateTaskRepository 5)) 0%nat); [reflexivity|].
    vm_compute. lia.
Defined.

Section Updates.

Lemma UpdateTaskStatus_found (id : Z) (s : TaskStatus) (r : TaskRepository)
    (l : loc) :
  tasks r !! id = Some l →
  UpdateTaskStatus id s r =
    (None,
     mkRepo (<[l := set_Status s (load l r)]> (heap r)) (tasks r)
       (if is_terminal s && is_active (Status (load l r))
        then wrap_int (activeTasks r - 1) else activeTasks r)
       (maxTasks r)).
Proof.
  intros Hl. unfold UpdateTaskStatus. rewrite Hl.
  change (String.eqb s StatusDone || String.eqb s StatusFailed)%bool
    with (is_terminal s).
  change (String.eqb (Status (load l r)) StatusWaiting
          || String.eqb (Status (load l r)) StatusProcessing)%bool
    with (is_active (Status (load l r))).
  by destruct (is_terminal s && is_active (Status (load l r))).
Qed.

Lemma UpdateTaskStatus_missing (id : Z) (s : TaskStatus) (r : TaskRepository) :
  tasks r !! id = None →
  UpdateTaskStatus id s r = (Some ErrTaskNotFound, r).
Proof. intros Hl. unfold UpdateTaskStatus. by rewrite Hl. Qed.

Lemma AddObject_found (taskID : Z) (url : string) (unix_nano : Z)
    (r : TaskRepository) (l : loc) :
  tasks r !! taskID = Some l →
  (length (Objects (load l r)) < 3)%nat →
  ValidateFileExtension url = None →
  AddObject taskID url unix_nano r =
    (Ok l,
     store l (set_Objects (Objects (load l r) ++ [mkObject unix_nano url EmptyString])
                (load l r)) r).
Proof.
  intros Hl Hlen Hext. unfold AddObject. rewrite Hl, Hext.
  unfold ValidateObjectLimit, maxObjectsPerTask.
  destruct (Z.geb_spec (Z.of_nat (length (Objects (load l r)))) 3); [lia|done].
Qed.

(** Every call of [AddObject] either fails and changes nothing, or
    appends one object to the task it names. *)
Lemma AddObject_cases (taskID : Z) (url : string) (unix_nano : Z)
    (r : TaskRepository) :
  (∃ e, AddObject taskID url unix_nano r = (Err e, r)) ∨
  (∃ l, tasks r !! taskID = Some l ∧
        (length (Objects (load l r)) < 3)%nat ∧
        ValidateFileExtension url = None ∧
        AddObject taskID url unix_nano r =
          (Ok l,
           store l (set_Objects
                      (Objects (load l r) ++ [mkObject unix_nano url EmptyString])
                      (load l r)) r)).
Proof.
  destruct (tasks r !! taskID) as [l|] eqn:Hl.
  - destruct (decide (length (Objects (load l r)) < 3)%nat) as [Hlen|Hlen].
    + destruct (ValidateFileExtension url) as [e|] eqn:Hext.
      * left. exists ErrInvalidFileType.
        apply (AddObject_bad_extension taskID url unix_nano r l Hl);
          [done|congruence].
      * right. exists l. repeat split; try done. by apply AddObject_found.
    + left. exists ErrMaxObjectsReached.
      apply (AddObject_full taskID url unix_nano r l Hl). lia.
  - left. exists ErrTaskNotFound. unfold AddObject. by rewrite Hl.
Qed.

End Updates.

(** Whether the task of a status update exists, with the update
    rewritten accordingly. *)
Ltac update_cases id s r l Hl :=
  destruct (tasks r !! id) as [l|] eqn:Hl;
  [ rewrite (UpdateTaskStatus_found id s r l Hl)
  | rewrite (UpdateTaskStatus_missing id s r Hl) ].

Section Counting.

Lemma count_active_app (h1 h2 : list Task) :
  count_active (h1 ++ h2) = (count_active h1 + count_active h2)%nat.
Proof. induction h1 as [|t h1 IH]; simpl; [done|]. rewrite IH. lia. Qed.

Lemma count_active_insert (h : list Task) (l : loc) (t t' : Task) :
  h !! l = Some t →
  (count_active (<[l := t']> h) + (if is_active (Status t) then 1 else 0)
   = count_active h + (if is_active (Status t') then 1 else 0))%nat.
Proof.
  unfold loc in *.
  revert l. induction h as [|x h IH]; intros [|l] Hl; simpl in *; try done.
  - injection Hl as ->. lia.
  - specialize (IH l Hl). lia.
Qed.

Lemma count_active_insert_same (h : list Task) (l : loc) (t' : Task) :
  is_active (Status t') = is_active (Status (default zeroTask (h !! l))) →
  count_active (<[l := t']> h) = count_active h.
Proof.
  intros Hs. destruct (h !! l) as [t|] eqn:Hl.
  - pose proof (count_active_insert h l t t' Hl) as H. simpl in Hs.
    rewrite Hs in H. lia.
  - rewrite list_insert_ge; [done|]. by apply lookup_ge_None.
Qed.

End Counting.

(** The registry keeps [maxTasks]. *)
Lemma step_maxTasks (o : op) (r : TaskRepository) :
  maxTasks (step o r) = maxTasks r.
Proof.
  destruct o as [n now|id|tid url n|id s|]; simpl; try done.
  - unfold CreateTask. by destruct (activeTasks r >=? maxTasks r).
  - destruct (AddObject_cases tid url n r) as [[e ->]|(l & _ & _ & _ & ->)]; done.
  - update_cases id s r l Hl; done.
Qed.

Lemma run_maxTasks (ops : list op) (r : TaskRepository) :
  maxTasks (run ops r) = maxTasks r.
Proof.
  revert r. induction ops as [|o ops IH]; intros r; [done|].
  unfold run in *. simpl. rewrite IH. apply step_maxTasks.
Qed.

(** One call lowers the counter by at most one and never lifts it above
    the capacity. *)
Lemma step_active_range (o : op) (r : TaskRepository) :
  min_int < activeTasks r → activeTasks r <= maxTasks r → maxTasks r <= max_int →
  activeTasks r - 1 <= activeTasks (step o r) <= maxTasks r.
Proof.
  intros Hlo Hhi Hmax.
  destruct o as [n now|id|tid url n|id s|]; simpl; try lia.
  - unfold CreateTask. destruct (Z.geb_spec (activeTasks r) (maxTasks r)); simpl; [lia|].
    rewrite wrap_int_id; [lia|]. unfold in_int. lia.
  - destruct (AddObject_cases tid url n r) as [[e ->]|(l & _ & _ & _ & ->)];
      simpl; lia.
  - update_cases id s r l Hl; simpl; [|lia].
    destruct (is_terminal s && is_active (Status (load l r))); [|lia].
    rewrite wrap_int_id; [lia|]. unfold in_int. lia.
Qed.

Lemma run_active_upper (ops : list op) (r : TaskRepository) (k : Z) :
  - k <= activeTasks r → activeTasks r <= maxTasks r → maxTasks r <= max_int →
  0 <= k → k + Z.of_nat (length ops) < 2 ^ 63 →
  activeTasks (run ops r) <= maxTasks r.
Proof.
  revert r k. induction ops as [|o ops IH]; intros r k Hlo Hhi Hmax Hk Hlen.
  - done.
  - unfold run in *. simpl.
    assert (min_int < activeTasks r) as Hmin.
    { unfold min_int. simpl length in Hlen. lia. }
    pose proof (step_active_range o r Hmin Hhi Hmax) as [H1 H2].
    rewrite <- (step_maxTasks o r).
    apply (IH (step o r) (k + 1)); rewrite ?step_maxTasks; try lia.
    simpl length in Hlen. lia.
Qed.

(** Along a run without reactivation the counter is never below the
    number of tasks whose status is active. *)
Lemma step_active_count (o : op) (r : TaskRepository) :
  Z.of_nat (count_active (heap r)) <= activeTasks r →
  activeTasks r <= maxTasks r → maxTasks r <= max_int →
  reactivates o r = false →
  Z.of_nat (count_active (heap (step o r))) <= activeTasks (step o r) ∧
  activeTasks (step o r) <= maxTasks r.
Proof.
  intros Hc Hhi Hmax Hre.
  destruct o as [n now|id|tid url n|id s|]; simpl; try done.
  - unfold CreateTask. destruct (Z.geb_spec (activeTasks r) (maxTasks r)); simpl; [done|].
    rewrite count_active_app. simpl.
    rewrite wrap_int_id; [lia|]. unfold in_int, min_int. lia.
  - destruct (AddObject_cases tid url n r) as [[e ->]|(l & _ & _ & _ & ->)];
      simpl; [done|].
    split; [|done]. rewrite count_active_insert_same; done.
  - simpl in Hre. unfold task_of in Hre.
    destruct (tasks r !! id) as [l|] eqn:Hl.
    + rewrite (UpdateTaskStatus_found id s r l Hl). simpl.
      unfold load in *.
      destruct (heap r !! l) as [t|] eqn:Ht; simpl in *.
      * pose proof (count_active_insert (heap r) l t (set_Status s t) Ht) as Hins.
        simpl in Hins.
        destruct (is_terminal s) eqn:Hts; simpl.
        -- rewrite (terminal_not_active s Hts) in Hins.
           destruct (is_active (Status t)) eqn:Hat.
           ++ rewrite wrap_int_id; [lia|]. unfold in_int, min_int. lia.
           ++ lia.
        -- destruct (is_active s) eqn:Has; simpl in Hre.
           ++ destruct (is_active (Status t)); [lia|done].
           ++ destruct (is_active (Status t)); lia.
      * rewrite list_insert_ge by (by apply lookup_ge_None).
        rewrite andb_false_r. done.
    + rewrite (UpdateTaskStatus_missing id s r Hl). done.
Qed.

Lemma run_active_count (ops : list op) (r : TaskRepository) :
  Z.of_nat (count_active (heap r)) <= activeTasks r →
  activeTasks r <= maxTasks r → maxTasks r <= max_int →
  no_reactivation ops r = true →
  0 <= activeTasks (run ops r) <= maxTasks r.
Proof.
  revert r. induction ops as [|o ops IH]; intros r Hc Hhi Hmax Hno.
  - unfold run. simpl. lia.
  - simpl in Hno. apply andb_true_iff in Hno as [Hre Hno].
    apply negb_true_iff in Hre.
    destruct (step_active_count o r Hc Hhi Hmax Hre) as [Hc' Hhi'].
    unfold run in *. simpl. rewrite <- (step_maxTasks o r).
    apply IH; rewrite ?step_maxTasks; done.
Qed.

(** A terminal status set on a task whose status is already terminal
    does not touch the counter. *)
Lemma terminal_twice (id : Z) (s1 s2 : TaskStatus) (r : TaskRepository) :
  is_terminal s1 = true → is_terminal s2 = true →
  activeTasks (UpdateTaskStatus id s2 (UpdateTaskStatus id s1 r).2).2
  = activeTasks (UpdateTaskStatus id s1 r).2.
Proof.
  intros H1 H2.
  destruct (tasks r !! id) as [l|] eqn:Hl.
  - rewrite (UpdateTaskStatus_found id s1 r l Hl).
    set (r1 := mkRepo _ _ _ _). simpl.
    rewrite (UpdateTaskStatus_found id s2 r1 l) by done. simpl.
    assert (is_active (Status (load l r1)) = false) as ->.
    { unfold load, r1. simpl.
      destruct (heap r !! l) as [t|] eqn:Ht.
      - rewrite list_lookup_insert_eq by (by eapply lookup_lt_Some). simpl.
        by apply terminal_not_active.
      - rewrite list_insert_ge by (by apply lookup_ge_None).
        by rewrite Ht. }
    by rewrite andb_false_r.
  - rewrite (UpdateTaskStatus_missing id s1 r Hl). simpl.
    by rewrite (UpdateTaskStatus_missing id s2 r Hl).
Qed.

(** C1, amended: from a fresh registry of capacity [0 <= maxT], the
    active count is at most the capacity after every run of fewer than
    2^63 calls; it is between 0 and the capacity after every run in which
    no call sets waiting or processing on a task whose status is neither;
    at capacity [CreateTask] fails with [ErrMaxTasksReached] and registers
    nothing; and a terminal status set on a task whose status is already
    terminal does not decrement the count. *)
Theorem active_count_bounds (maxT : Z) (ops : list op) :
  0 <= maxT <= max_int →
  let r := run ops (CreateTaskRepository maxT) in
  (Z.of_nat (length ops) < 2 ^ 63 → activeTasks r <= maxTasks r) ∧
  (no_reactivation ops (CreateTaskRepository maxT) = true →
     0 <= activeTasks r <= maxTasks r) ∧
  (∀ unix_nano now, activeTasks r >= maxTasks r →
     ∃ e, CreateTask unix_nano now r = (Err e, r) ∧
          Is e ErrMaxTasksReached = true) ∧
  (∀ id s1 s2, is_terminal s1 = true → is_terminal s2 = true →
     activeTasks (UpdateTaskStatus id s2 (UpdateTaskStatus id s1 r).2).2
     = activeTasks (UpdateTaskStatus id s1 r).2).
Proof.
  intros [Hlo Hhi] r. subst r.
  rewrite run_maxTasks. simpl maxTasks.
  split; [|split; [|split]].
  - intros Hlen.
    apply (run_active_upper ops (CreateTaskRepository maxT) 0); simpl; lia.
  - intros Hno.
    apply (run_active_count ops (CreateTaskRepository maxT)); simpl; try lia. done.
  - intros n now Hge. unfold CreateTask.
    rewrite run_maxTasks. simpl maxTasks.
    destruct (Z.geb_spec (activeTasks (run ops (CreateTaskRepository maxT))) maxT);
      [|lia].
    eexists. split; done.
  - intros id s1 s2. apply terminal_twice.
Qed.

Lemma active_count_bounds_witness :
  let ops := [OpCreateTask 1 1; OpUpdateTaskStatus 1 StatusProcessing;
              OpUpdateTaskStatus 1 StatusDone; OpUpdateTaskStatus 1 StatusFailed] in
  0 <= 2 <= max_int ∧
  no_reactivation ops (CreateTaskRepository 2) = true ∧
  0 <= activeTasks (run ops (CreateTaskRepository 2)) <= 2.
Proof.
  split; [|split].
  - vm_compute. split; discriminate.
  - reflexivity.
  - apply (active_count_bounds 2
             [OpCreateTask 1 1; OpUpdateTaskStatus 1 StatusProcessing;
              OpUpdateTaskStatus 1 StatusDone; OpUpdateTaskStatus 1 StatusFailed]).
    + vm_compute. split; discriminate.
    + reflexivity.
Defined.

(** C1, as stated, fails: a task set back from done to waiting and then to
    done again releases its slot twice. *)
Lemma active_count_negative :
  let r := run [OpCreateTask 1 1; OpUpdateTaskStatus 1 StatusDone;
                OpUpdateTaskStatus 1 StatusWaiting; OpUpdateTaskStatus 1 StatusDone]
               (CreateTaskRepository 5) in
  activeTasks r = -1 ∧ ¬ (0 <= activeTasks r <= maxTasks r).
Proof.
  split; [reflexivity|]. vm_compute. intros [H _]. by apply H.
Qed.

(** ** Pointers of the registry *)

Section WellFormed.

Lemma repo_wf_fresh (maxT : Z) : repo_wf (CreateTaskRepository maxT).
Proof. repeat split; intros *; simpl; by rewrite lookup_empty. Qed.

Lemma load_store (l l' : loc) (t : Task) (r : TaskRepository) :
  (l < length (heap r))%nat →
  load l' (store l t r) = if decide (l = l') then t else load l' r.
Proof.
  intros Hl. case_decide as Hd.
  - subst. by apply load_store_eq.
  - by apply load_store_ne.
Qed.

Lemma repo_wf_store (l : loc) (t : Task) (r : TaskRepository) :
  repo_wf r → ID t = ID (load l r) → repo_wf (store l t r).
Proof.
  intros (Hv & Hi & Hid) Ht. repeat split; simpl.
  - intros id l' Hl'. rewrite length_insert. by eapply Hv.
  - exact Hi.
  - intros id l' Hl'.
    destruct (decide (l = l')) as [->|Hne].
    + rewrite load_store_eq by (by eapply Hv). rewrite Ht. by apply Hid.
    + rewrite load_store_ne by done. by apply Hid.
Qed.

Lemma repo_wf_counter (r : TaskRepository) (a : Z) :
  repo_wf r → repo_wf (mkRepo (heap r) (tasks r) a (maxTasks r)).
Proof. intros (Hv & Hi & Hid). repeat split; simpl; eauto. Qed.

Lemma load_alloc_old (l : loc) (t : Task) (r : TaskRepository) (m : gmap Z loc)
    (a : Z) :
  (l < length (heap r))%nat →
  load l (mkRepo (heap r ++ [t]) m a (maxTasks r)) = load l r.
Proof. intros Hl. unfold load. simpl. by rewrite lookup_app_l. Qed.

Lemma load_alloc_new (t : Task) (r : TaskRepository) (m : gmap Z loc) (a : Z) :
  load (length (heap r)) (mkRepo (heap r ++ [t]) m a (maxTasks r)) = t.
Proof.
  unfold load. simpl. rewrite lookup_app_r by lia. by rewrite Nat.sub_diag.
Qed.

Lemma repo_wf_step (o : op) (r : TaskRepository) :
  repo_wf r → repo_wf (step o r).
Proof.
  intros Hwf. pose proof Hwf as (Hv & Hi & Hid).
  destruct o as [n now|id|tid url n|id s|]; simpl; try done.
  - unfold CreateTask. destruct (activeTasks r >=? maxTasks r); simpl; [done|].
    repeat split; simpl.
    + intros id l. rewrite lookup_insert, length_app. simpl.
      case_decide; [intros [= <-]; lia|]. intros Hl. apply Hv in Hl. lia.
    + intros id1 id2 l. rewrite !lookup_insert.
      repeat case_decide; subst; try done.
      * intros [= <-] Hl. apply Hv in Hl. lia.
      * intros Hl [= <-]. apply Hv in Hl. lia.
      * apply Hi.
    + intros id l. rewrite lookup_insert. case_decide.
      * intros [= <-]. subst. by rewrite load_alloc_new.
      * intros Hl. rewrite load_alloc_old by (by eapply Hv). by apply Hid.
  - destruct (AddObject_cases tid url n r) as [[e ->]|(l & _ & _ & _ & ->)];
      simpl; [done|].
    by apply repo_wf_store.
  - update_cases id s r l Hl; simpl; [|done].
    apply (repo_wf_counter (store l (set_Status s (load l r)) r)).
    by apply repo_wf_store.
Qed.

Lemma repo_wf_run (ops : list op) (r : TaskRepository) :
  repo_wf r → repo_wf (run ops r).
Proof.
  revert r. induction ops as [|o ops IH]; intros r Hwf; [done|].
  unfold run in *. simpl. apply IH. by apply repo_wf_step.
Qed.

Lemma run_app (ops1 ops2 : list op) (r : TaskRepository) :
  run (ops1 ++ ops2) r = run ops2 (run ops1 r).
Proof. unfold run. apply foldl_app. Qed.

End WellFormed.

(** ** What one call does to the task of a given id *)

Section TaskOf.

Lemma task_of_update_same (id : Z) (s : TaskStatus) (r : TaskRepository)
    (t : Task) :
  repo_wf r → task_of id r = Some t →
  task_of id (UpdateTaskStatus id s r).2 = Some (set_Status s t).
Proof.
  intros (Hv & _ & _). unfold task_of.
  destruct (tasks r !! id) as [l|] eqn:Hl; [|done]. intros [= <-].
  rewrite (UpdateTaskStatus_found id s r l Hl). simpl. rewrite Hl.
  f_equal.
  apply (load_store_eq l (set_Status s (load l r))
           (mkRepo (heap r) (tasks r)
              (if is_terminal s && is_active (Status (load l r))
               then wrap_int (activeTasks r - 1) else activeTasks r)
              (maxTasks r))).
  simpl. by eapply Hv.
Qed.

Lemma task_of_update_other (id id' : Z) (s : TaskStatus) (r : TaskRepository) :
  repo_wf r → id ≠ id' →
  task_of id (UpdateTaskStatus id' s r).2 = task_of id r.
Proof.
  intros (Hv & Hi & _) Hne.
  destruct (tasks r !! id') as [l'|] eqn:Hl'.
  - rewrite (UpdateTaskStatus_found id' s r l' Hl'). unfold task_of. simpl.
    destruct (tasks r !! id) as [l|] eqn:Hl; [|done]. f_equal.
    apply (load_store_ne l' l (set_Status s (load l' r))
             (mkRepo (heap r) (tasks r)
                (if is_terminal s && is_active (Status (load l' r))
                 then wrap_int (activeTasks r - 1) else activeTasks r)
                (maxTasks r))).
    intros ->. apply Hne. by eapply Hi.
  - by rewrite (UpdateTaskStatus_missing id' s r Hl').
Qed.

Lemma task_of_add (id tid : Z) (url : string) (n : Z) (r : TaskRepository)
    (t : Task) :
  repo_wf r → task_of id r = Some t →
  ∃ t', task_of id (AddObject tid url n r).2 = Some t' ∧
        Status t' = Status t ∧ ID t' = ID t.
Proof.
  intros (Hv & Hi & _) Ht.
  destruct (AddObject_cases tid url n r) as [[e ->]|(l' & Hl' & _ & _ & ->)];
    simpl; [by exists t|].
  unfold task_of in *. simpl.
  destruct (tasks r !! id) as [l|] eqn:Hl; [|done]. injection Ht as <-.
  destruct (decide (l' = l)) as [->|Hne].
  - exists (set_Objects (Objects (load l r) ++ [mkObject n url EmptyString]) (load l r)).
    split; [|done].
    by rewrite load_store_eq by (by eapply Hv).
  - exists (load l r). by rewrite load_store_ne.
Qed.

Lemma task_of_create_other (id n now : Z) (r : TaskRepository) :
  repo_wf r → n ≠ id →
  task_of id (CreateTask n now r).2 = task_of id r.
Proof.
  intros (Hv & _ & _) Hne. unfold CreateTask.
  destruct (activeTasks r >=? maxTasks r); simpl; [done|].
  unfold task_of. simpl. rewrite lookup_insert_ne by done.
  destruct (tasks r !! id) as [l|] eqn:Hl; [|done].
  by rewrite load_alloc_old by (by eapply Hv).
Qed.

End TaskOf.

Lemma terminal_step (id : Z) (o : op) (r : TaskRepository) (t : Task) :
  repo_wf r → task_of id r = Some t → is_terminal (Status t) = true →
  may_regress id o = false →
  ∃ t', task_of id (step o r) = Some t' ∧ is_terminal (Status t') = true.
Proof.
  intros Hwf Ht Hterm Hre.
  destruct o as [n now|id'|tid url n|id' s|]; simpl in *; try by exists t.
  - rewrite task_of_create_other; [by exists t|done|].
    by apply bool_decide_eq_false in Hre.
  - destruct (task_of_add id tid url n r t Hwf Ht) as (t' & Ht' & Hs & _).
    exists t'. by rewrite Hs.
  - destruct (decide (id' = id)) as [->|Hne].
    + rewrite bool_decide_eq_true_2 in Hre by done. simpl in Hre.
      apply negb_false_iff in Hre.
      rewrite (task_of_update_same id s r t) by done.
      by eexists.
    + rewrite task_of_update_other by done. by exists t.
Qed.

Lemma terminal_run (id : Z) (ops : list op) (r : TaskRepository) (t : Task) :
  repo_wf r → task_of id r = Some t → is_terminal (Status t) = true →
  forallb (λ o, negb (may_regress id o)) ops = true →
  ∃ t', task_of id (run ops r) = Some t' ∧ is_terminal (Status t') = true.
Proof.
  revert r t. induction ops as [|o ops IH]; intros r t Hwf Ht Hterm Hall.
  - by exists t.
  - simpl in Hall. apply andb_true_iff in Hall as [Ho Hall].
    apply negb_true_iff in Ho.
    destruct (terminal_step id o r t Hwf Ht Hterm Ho) as (t1 & Ht1 & Hterm1).
    unfold run in *. simpl.
    apply (IH (step o r) t1); try done. by apply repo_wf_step.
Qed.

(** C2, amended: [UpdateTaskStatus] on an existing task stores the status
    it is given, whatever the task's status was; and a task whose status
    is done or failed keeps a terminal status along every run that
    contains no status update of that task to a non-terminal status and
    no creation that issues its id again. *)
Theorem terminal_unless_reset (maxT : Z) (ops0 ops : list op) (id : Z) (t : Task) :
  task_of id (run ops0 (CreateTaskRepository maxT)) = Some t →
  (∀ s, ∃ t', task_of id (UpdateTaskStatus id s
                            (run ops0 (CreateTaskRepository maxT))).2 = Some t' ∧
              Status t' = s) ∧
  (is_terminal (Status t) = true →
   forallb (λ o, negb (may_regress id o)) ops = true →
   ∃ t', task_of id (run (ops0 ++ ops) (CreateTaskRepository maxT)) = Some t' ∧
         is_terminal (Status t') = true).
Proof.
  intros Ht.
  assert (repo_wf (run ops0 (CreateTaskRepository maxT))) as Hwf.
  { apply repo_wf_run, repo_wf_fresh. }
  split.
  - intros s. exists (set_Status s t). split; [|done].
    by apply task_of_update_same.
  - intros Hterm Hall. rewrite run_app. by eapply terminal_run.
Qed.

Lemma terminal_unless_reset_witness :
  let ops0 := [OpCreateTask 1 1; OpUpdateTaskStatus 1 StatusDone] in
  let ops := [OpAddObject 1 "a.jpg" 2; OpUpdateTaskStatus 1 StatusFailed;
              OpCreateTask 3 3; OpUpdateTaskStatus 3 StatusWaiting] in
  task_of 1 (run ops0 (CreateTaskRepository 5)) = Some (mkTask 1 StatusDone [] 1) ∧
  ∃ t', task_of 1 (run (ops0 ++ ops) (CreateTaskRepository 5)) = Some t' ∧
        is_terminal (Status t') = true.
Proof.
  split; [reflexivity|].
  apply (terminal_unless_reset 5
           [OpCreateTask 1 1; OpUpdateTaskStatus 1 StatusDone]
           [OpAddObject 1 "a.jpg" 2; OpUpdateTaskStatus 1 StatusFailed;
            OpCreateTask 3 3; OpUpdateTaskStatus 3 StatusWaiting]
           1 (mkTask 1 StatusDone [] 1)); reflexivity.
Defined.

(** C2, as stated, fails: the registry stores a non-terminal status on a
    task that is done. *)
Lemma done_back_to_waiting :
  let r := run [OpCreateTask 1 1; OpUpdateTaskStatus 1 StatusDone]
               (CreateTaskRepository 5) in
  Status <$> task_of 1 r = Some StatusDone ∧
  (UpdateTaskStatus 1 StatusWaiting r).1 = None ∧
  Status <$> task_of 1 (UpdateTaskStatus 1 StatusWaiting r).2 = Some StatusWaiting ∧
  is_terminal StatusWaiting = false.
Proof. repeat split. Qed.

(** An id that is issued is the clock reading of a creation of the run:
    ids are as distinct, and as positive, as the readings are. *)
Lemma issued_ids_clock (ops : list op) (r : TaskRepository) (id : Z) :
  id ∈ issued_ids ops r → ∃ now, OpCreateTask id now ∈ ops.
Proof.
  revert r. induction ops as [|o ops IH]; intros r Hin; simpl in Hin.
  - by apply elem_of_nil in Hin.
  - apply elem_of_app in Hin as [Hin|Hin].
    + destruct o as [n now| | | |]; try by apply elem_of_nil in Hin.
      unfold step, CreateTask in Hin.
      destruct (activeTasks r >=? maxTasks r); simpl in Hin;
        [by apply elem_of_nil in Hin|].
      rewrite load_alloc_new in Hin. simpl in Hin.
      apply elem_of_cons in Hin as [->|Hin]; [|by apply elem_of_nil in Hin].
      exists now. apply elem_of_cons. by left.
    + destruct (IH _ Hin) as [now Hnow]. exists now. apply elem_of_cons. by right.
Qed.

(** C8: two creations that read the same clock value are issued the same
    id; the second replaces the first in the registry and both hold a slot. *)
Theorem same_clock_same_id :
  let r0 := CreateTaskRepository 5 in
  let c1 := CreateTask 1700000000000000000 1700000000000000000 r0 in
  let c2 := CreateTask 1700000000000000000 1700000000000000005 c1.2 in
  c1.1 = Ok 0%nat ∧ c2.1 = Ok 1%nat ∧
  ID (load 0%nat c2.2) = ID (load 1%nat c2.2) ∧
  issued_ids [OpCreateTask 1700000000000000000 1700000000000000000;
              OpCreateTask 1700000000000000000 1700000000000000005] r0
  = [1700000000000000000; 1700000000000000000] ∧
  GetAllTasks c2.2 = [1%nat] ∧
  activeTasks c2.2 = 2.
Proof. repeat split. Qed.

Import usecase.

(** * The lifecycle engine *)

Section Archive.

Variable p : Platform.

Lemma archive_object_fetched (acc : Archive * nat) (obj : Object) :
  fetched p obj = true →
  ∃ resp, http_Get p (URL obj) = Some resp ∧
    archive_object p acc obj =
      (acc.1 ++ [(filepath_Base p (URL obj),
                  (io_Copy p (filepath_Base p (URL obj)) (Body resp)).1)],
       S acc.2).
Proof.
  unfold fetched, archive_object.
  destruct (http_Get p (URL obj)) as [resp|]; [|done].
  intros H. apply andb_true_iff in H as [H Hcopy].
  apply andb_true_iff in H as [Hcode Hzip].
  exists resp. split; [done|]. by rewrite Hcode, Hzip, Hcopy.
Qed.

Lemma archive_object_not_fetched (acc : Archive * nat) (obj : Object) :
  fetched p obj = false →
  (archive_object p acc obj).2 = acc.2 ∧
  ∃ extra, (archive_object p acc obj).1 = acc.1 ++ extra.
Proof.
  unfold fetched, archive_object.
  destruct (http_Get p (URL obj)) as [resp|];
    [|intros _; split; [done|exists []; by rewrite app_nil_r]].
  destruct (StatusCode resp =? 200); simpl;
    [|intros _; split; [done|exists []; by rewrite app_nil_r]].
  destruct (zip_Create p (filepath_Base p (URL obj))); simpl;
    [|intros _; split; [done|exists []; by rewrite app_nil_r]].
  intros ->. split; [done|]. by eexists.
Qed.

(** [successCount] is the number of references fetched, and every one
    of them has its entry in the archive. *)
Lemma archive_fold (objs : list Object) (acc : Archive * nat) :
  (foldl (archive_object p) acc objs).2
    = (acc.2 + length (List.filter (fetched p) objs))%nat ∧
  ∃ extra, (foldl (archive_object p) acc objs).1 = acc.1 ++ extra ∧
    ∀ obj, obj ∈ objs → fetched p obj = true →
      ∃ written, (filepath_Base p (URL obj), written) ∈ extra.
Proof.
  revert acc. induction objs as [|obj objs IH]; intros acc; simpl.
  - split; [lia|]. exists []. rewrite app_nil_r. split; [done|].
    intros obj Hin. by apply elem_of_nil in Hin.
  - destruct (IH (archive_object p acc obj)) as (Hn & extra & Hz & Hin).
    destruct (fetched p obj) eqn:Hf.
    + destruct (archive_object_fetched acc obj Hf) as (resp & _ & Hstep).
      rewrite Hstep in *. simpl in *. split; [lia|].
      eexists. split; [by rewrite Hz, <- app_assoc|].
      intros o Ho Hfo. apply elem_of_cons in Ho as [->|Ho].
      * eexists. apply elem_of_app. left. apply elem_of_cons. by left.
      * destruct (Hin o Ho Hfo) as [wr Hwr]. exists wr.
        apply elem_of_app. by right.
    + destruct (archive_object_not_fetched acc obj Hf) as (Hc & ex0 & Hz0).
      rewrite Hc in Hn. split; [done|].
      exists (ex0 ++ extra). split; [by rewrite Hz, Hz0, <- app_assoc|].
      intros o Ho Hfo. apply elem_of_cons in Ho as [->|Ho]; [congruence|].
      destruct (Hin o Ho Hfo) as [wr Hwr]. exists wr.
      apply elem_of_app. by right.
Qed.

Lemma no_fetch_iff (objs : list Object) :
  length (List.filter (fetched p) objs) = 0%nat ↔
  existsb (fetched p) objs = false.
Proof.
  induction objs as [|obj objs IH]; simpl; [done|].
  destruct (fetched p obj); simpl; [done|exact IH].
Qed.

End Archive.


Section Trigger.

Lemma set_repo_same (w : World) : set_repo (repo w) w = w.
Proof. by destruct w. Qed.

(** One call of [AddObject], alone, is its two steps one after the
    other. *)
Lemma AddObject_two_steps (taskID : Z) (url : string) (unix_nano : Z)
    (w : World) :
  interleave [0%nat; 0%nat] [Calling taskID url unix_nano] w
  = ([Returned (usecase.AddObject taskID url unix_nano w).1],
     (usecase.AddObject taskID url unix_nano w).2).
Proof.
  unfold usecase.AddObject. simpl.
  by destruct (repository.AddObject taskID url unix_nano (repo w)) as [[l|e] r].
Qed.

(** What a call of [AddObject] that is not interleaved with another
    does: it fails and changes nothing, or it appends one object and
    starts processing exactly when the task then holds 3 objects; the
    status and the files are as before. *)
Lemma AddObject_alone (taskID : Z) (url : string) (unix_nano : Z) (w : World)
    (l : loc) (t : Task) :
  tasks (repo w) !! taskID = Some l → heap (repo w) !! l = Some t →
  (∃ e, usecase.AddObject taskID url unix_nano w = (Err e, w) ∧
        ((3 <= length (Objects t))%nat ∧ e = ErrMaxObjectsReached ∨
         (length (Objects t) < 3)%nat ∧ ValidateFileExtension url ≠ None ∧
         e = ErrInvalidFileType)) ∨
  ((length (Objects t) < 3)%nat ∧ ValidateFileExtension url = None ∧
   ∃ w', usecase.AddObject taskID url unix_nano w = (Ok l, w') ∧
     tasks (repo w') = tasks (repo w) ∧
     heap (repo w') !! l
       = Some (set_Objects (Objects t ++ [mkObject unix_nano url EmptyString]) t) ∧
     files w' = files w ∧
     spawned w' = spawned w ++
       (if (length (Objects t) + 1 =? 3)%nat then [ID t] else [])).
Proof.
  intros Hl Ht. pose proof (load_lookup l t (repo w) Ht) as Hload.
  assert (l < length (heap (repo w)))%nat as Hlt by (by eapply lookup_lt_Some).
  unfold usecase.AddObject.
  destruct (decide (length (Objects t) < 3)%nat) as [Hlen|Hlen].
  - destruct (ValidateFileExtension url) as [e|] eqn:Hext.
    + left. exists ErrInvalidFileType.
      rewrite (AddObject_bad_extension taskID url unix_nano (repo w) l Hl)
        by (rewrite ?Hload; congruence).
      rewrite set_repo_same. split; [done|]. right. done.
    + right. split; [done|]. split; [done|].
      rewrite (AddObject_found taskID url unix_nano (repo w) l Hl)
        by (rewrite ?Hload; done).
      rewrite Hload. eexists. split; [reflexivity|].
      unfold AddObject_trigger. simpl.
      assert (load l (store l (set_Objects (Objects t ++ [mkObject unix_nano url EmptyString]) t)
                        (repo w))
              = set_Objects (Objects t ++ [mkObject unix_nano url EmptyString]) t) as ->.
      { by apply load_store_eq. }
      simpl. rewrite length_app. simpl.
      destruct (length (Objects t) + 1 =? 3)%nat; simpl;
        rewrite ?app_nil_r; repeat split; by rewrite ?list_lookup_insert_eq.
  - left. exists ErrMaxObjectsReached.
    rewrite (AddObject_full taskID url unix_nano (repo w) l Hl)
      by (rewrite Hload; lia).
    rewrite set_repo_same. split; [done|]. left. split; [lia|done].
Qed.

End Trigger.

(** C7: two calls of [AddObject] on a task that holds one object, as the
    bulk attach issues them. When both registry calls are made before
    either call tests the length, both calls read 3 through the shared
    task and both start processing. *)
Theorem concurrent_AddObject_starts_processing_twice :
  let w := mkWorld (run [OpCreateTask 7 7; OpAddObject 7 "http://h/a.jpg" 8]
                        (CreateTaskRepository 5)) ∅ [] in
  let cs := [Calling 7 "http://h/b.jpg" 9; Calling 7 "http://h/c.pdf" 10] in
  (interleave [0; 1; 0; 1]%nat cs w).1 = [Returned (Ok 0%nat); Returned (Ok 0%nat)] ∧
  length (Objects (load 0%nat (repo (interleave [0; 1; 0; 1]%nat cs w).2))) = 3%nat ∧
  spawned (interleave [0; 1; 0; 1]%nat cs w).2 = [7; 7] ∧
  spawned (interleave [0; 0; 1; 1]%nat cs w).2 = [7].
Proof. repeat split. Qed.

Import delivery.

(** * Bulk attach *)

Section CallAll.

Variable taskID : Z.

Lemma call_all_acc (cs : list (string * Z)) (acc : list (string * option error))
    (w : World) :
  foldl (λ acc c,
           match usecase.AddObject taskID c.1 c.2 acc.2 with
           | (Err err, w') => (acc.1 ++ [(c.1, Some err)], w')
           | (Ok _, w') => (acc.1 ++ [(c.1, None)], w')
           end) (acc, w) cs
  = (acc ++ (call_all taskID cs w).1, (call_all taskID cs w).2).
Proof.
  revert acc w. induction cs as [|c cs IH]; intros acc w.
  - unfold call_all. simpl. by rewrite app_nil_r.
  - unfold call_all. simpl.
    destruct (usecase.AddObject taskID c.1 c.2 w) as [[k|e] w1]; simpl.
    + rewrite (IH (acc ++ [(c.1, None)]) w1).
      rewrite (IH ([(c.1, None)]) w1). simpl. by rewrite <- app_assoc.
    + rewrite (IH (acc ++ [(c.1, Some e)]) w1).
      rewrite (IH ([(c.1, Some e)]) w1). simpl. by rewrite <- app_assoc.
Qed.

Lemma call_all_cons (c : string * Z) (cs : list (string * Z)) (w : World) :
  call_all taskID (c :: cs) w
  = ((c.1, match (usecase.AddObject taskID c.1 c.2 w).1 with
           | Err e => Some e
           | Ok _ => None
           end) :: (call_all taskID cs (usecase.AddObject taskID c.1 c.2 w).2).1,
     (call_all taskID cs (usecase.AddObject taskID c.1 c.2 w).2).2).
Proof.
  unfold call_all at 1. simpl.
  destruct (usecase.AddObject taskID c.1 c.2 w) as [[k|e] w1]; simpl;
    by rewrite call_all_acc.
Qed.


End CallAll.

Section Recording.




End Recording.





(** * Further properties of the code *)

Import observe.

(** ** The registry over a run of calls *)

Section Registered.

Lemma issued_ids_cons (o : op) (ops : list op) (r : TaskRepository) :
  issued_ids (o :: ops) r = issued_ids [o] r ++ issued_ids ops (step o r).
Proof. simpl. by rewrite app_nil_r. Qed.

Lemma issued_ids_app (ops1 ops2 : list op) (r : TaskRepository) :
  issued_ids (ops1 ++ ops2) r
  = issued_ids ops1 r ++ issued_ids ops2 (run ops1 r).
Proof.
  revert r. induction ops1 as [|o ops1 IH]; intros r; [done|].
  rewrite <- app_comm_cons.
  rewrite (issued_ids_cons o (ops1 ++ ops2)), (issued_ids_cons o ops1), IH.
  by rewrite app_assoc.
Qed.

(** The effect of a creation that finds a free slot. *)
Lemma CreateTask_free (unix_nano now : Z) (r : TaskRepository) :
  activeTasks r < maxTasks r →
  repository.CreateTask unix_nano now r
  = (Ok (length (heap r)),
     mkRepo (heap r ++ [mkTask unix_nano StatusWaiting [] now])
            (<[unix_nano := length (heap r)]> (tasks r))
            (wrap_int (activeTasks r + 1)) (maxTasks r)).
Proof.
  intros Hlt. unfold repository.CreateTask.
  by destruct (Z.geb_spec (activeTasks r) (maxTasks r)); [lia|].
Qed.

Lemma CreateTask_busy (unix_nano now : Z) (r : TaskRepository) :
  activeTasks r >= maxTasks r →
  (repository.CreateTask unix_nano now r).2 = r ∧
  ∃ e, (repository.CreateTask unix_nano now r).1 = Err e.
Proof.
  intros Hge. unfold repository.CreateTask.
  destruct (Z.geb_spec (activeTasks r) (maxTasks r)); [|lia].
  split; [done|by eexists].
Qed.

Lemma issued_ids_create (unix_nano now : Z) (r : TaskRepository) :
  issued_ids [OpCreateTask unix_nano now] r
  = if decide (activeTasks r < maxTasks r) then [unix_nano] else [].
Proof.
  simpl. rewrite app_nil_r. case_decide as Hlt.
  - rewrite (CreateTask_free unix_nano now r Hlt). simpl.
    by rewrite load_alloc_new.
  - destruct (CreateTask_busy unix_nano now r) as [_ [e ->]]; [lia|done].
Qed.

(** Only a creation changes the map of the registry. *)
Lemma step_tasks (o : op) (r : TaskRepository) :
  tasks (step o r)
  = match o with
    | OpCreateTask unix_nano _ =>
        if decide (activeTasks r < maxTasks r)
        then <[unix_nano := length (heap r)]> (tasks r)
        else tasks r
    | _ => tasks r
    end.
Proof.
  destruct o as [n now|id|tid url n|id s|]; simpl; try done.
  - case_decide as Hlt.
    + by rewrite (CreateTask_free n now r Hlt).
    + destruct (CreateTask_busy n now r) as [-> _]; [lia|done].
  - destruct (AddObject_cases tid url n r) as [[e ->]|(l & _ & _ & _ & ->)]; done.
  - update_cases id s r l Hl; done.
Qed.

Lemma step_registered (o : op) (r : TaskRepository) (id : Z) :
  is_Some (tasks (step o r) !! id)
  ↔ is_Some (tasks r !! id) ∨ id ∈ issued_ids [o] r.
Proof.
  rewrite step_tasks. destruct o as [n now|?|? ? ?|? ?|];
    try (simpl; rewrite elem_of_nil; tauto).
  rewrite issued_ids_create. case_decide as Hlt.
  - rewrite lookup_insert_is_Some, elem_of_cons, elem_of_nil.
    destruct (decide (n = id)); intuition.
  - rewrite elem_of_nil. tauto.
Qed.

Lemma run_registered (ops : list op) (r : TaskRepository) (id : Z) :
  is_Some (tasks (run ops r) !! id)
  ↔ is_Some (tasks r !! id) ∨ id ∈ issued_ids ops r.
Proof.
  revert r. induction ops as [|o ops IH]; intros r.
  - simpl. rewrite elem_of_nil. tauto.
  - rewrite issued_ids_cons, elem_of_app.
    change (run (o :: ops) r) with (run ops (step o r)).
    rewrite IH, step_registered. tauto.
Qed.

Lemma GetTask_Ok (id : Z) (r : TaskRepository) :
  (∃ l, repository.GetTask id r = Ok l) ↔ is_Some (tasks r !! id).
Proof.
  unfold repository.GetTask. destruct (tasks r !! id) as [l|].
  - split; [by eexists|]. intros _. by exists l.
  - split; [by intros [l ?]|by intros [l ?]].
Qed.

End Registered.

(** X1: from a fresh registry, [GetTask] finds exactly the ids issued
    by the creations of the run that succeeded; for every other id it
    answers [ErrTaskNotFound]. *)
Theorem GetTask_found_iff_issued (maxT : Z) (ops : list op) (id : Z) :
  ((∃ l, repository.GetTask id (run ops (CreateTaskRepository maxT)) = Ok l)
   ↔ id ∈ issued_ids ops (CreateTaskRepository maxT)) ∧
  (repository.GetTask id (run ops (CreateTaskRepository maxT)) = Err ErrTaskNotFound
   ↔ id ∉ issued_ids ops (CreateTaskRepository maxT)).
Proof.
  pose proof (run_registered ops (CreateTaskRepository maxT) id) as H.
  assert (¬ is_Some (tasks (CreateTaskRepository maxT) !! id)) as Hnone.
  { simpl. rewrite lookup_empty. by intros [? ?]. }
  split.
  - rewrite GetTask_Ok. tauto.
  - unfold repository.GetTask in *.
    destruct (tasks (run ops (CreateTaskRepository maxT)) !! id) as [l|] eqn:Hl.
    + split; [done|]. intros Hn. exfalso.
      destruct (proj1 H) as [Hs|Hin]; [by eexists|by apply Hnone|by apply Hn].
    + split; [|done]. intros _ Hin.
      destruct (proj2 H) as [? ?]; [by right|done].
Qed.

(** X2: no call removes a task: an id that [GetTask] finds is found
    after any further calls. *)
Theorem GetTask_found_forever (ops : list op) (r : TaskRepository) (id : Z)
    (l : loc) :
  repository.GetTask id r = Ok l →
  ∃ l', repository.GetTask id (run ops r) = Ok l'.
Proof.
  intros Hl. apply GetTask_Ok, run_registered. left.
  apply GetTask_Ok. by exists l.
Qed.

Lemma GetTask_found_forever_witness :
  ∃ l', repository.GetTask 1
          (run [OpUpdateTaskStatus 1 StatusDone; OpCreateTask 2 2]
               (repository.CreateTask 1 1 (CreateTaskRepository 5)).2) = Ok l'.
Proof.
  apply (GetTask_found_forever _ _ 1 0%nat). reflexivity.
Defined.

Section Reachable.

Lemma wrap_int_range (z : Z) : in_int (wrap_int z).
Proof.
  unfold in_int, wrap_int, min_int, max_int.
  pose proof (Z.mod_pos_bound (z + 2 ^ 63) (2 ^ 64)). lia.
Qed.

Lemma step_active_in_int (o : op) (r : TaskRepository) :
  in_int (activeTasks r) → in_int (activeTasks (step o r)).
Proof.
  intros Ha. destruct o as [n now|id|tid url n|id s|]; simpl; try done.
  - destruct (decide (activeTasks r < maxTasks r)) as [Hlt|Hge].
    + rewrite (CreateTask_free n now r Hlt). apply wrap_int_range.
    + destruct (CreateTask_busy n now r) as [-> _]; [lia|done].
  - destruct (AddObject_cases tid url n r) as [[e ->]|(l & _ & _ & _ & ->)]; done.
  - update_cases id s r l Hl; simpl; [|done].
    destruct (is_terminal s && is_active (Status (load l r))); [|done].
    apply wrap_int_range.
Qed.

Lemma run_active_in_int (ops : list op) (r : TaskRepository) :
  in_int (activeTasks r) → in_int (activeTasks (run ops r)).
Proof.
  revert r. induction ops as [|o ops IH]; intros r Ha; [done|].
  apply (IH (step o r)). by apply step_active_in_int.
Qed.

Lemma admissible_load (l : loc) (r : TaskRepository) :
  Forall admissible (heap r) → admissible (load l r).
Proof.
  intros Hall. unfold load. destruct (heap r !! l) as [t|] eqn:Ht; simpl.
  - by apply (Forall_lookup_1 _ _ _ _ Hall Ht).
  - split; [simpl; lia|constructor].
Qed.

Lemma admissible_step (o : op) (r : TaskRepository) :
  Forall admissible (heap r) → Forall admissible (heap (step o r)).
Proof.
  intros Hall. destruct o as [n now|id|tid url n|id s|]; simpl; try done.
  - destruct (decide (activeTasks r < maxTasks r)) as [Hlt|Hge].
    + rewrite (CreateTask_free n now r Hlt). simpl.
      apply Forall_app. split; [done|]. constructor; [|constructor].
      split; [simpl; lia|constructor].
    + destruct (CreateTask_busy n now r) as [-> _]; [lia|done].
  - destruct (AddObject_cases tid url n r)
      as [[e ->]|(l & _ & Hlen & Hext & ->)]; [done|]. simpl.
    apply Forall_insert; [done|].
    destruct (admissible_load l r Hall) as [_ Hurls].
    split; simpl.
    + rewrite length_app. simpl. lia.
    + apply Forall_app. split; [done|]. by constructor.
  - update_cases id s r l Hl; simpl; [|done].
    apply Forall_insert; [done|]. apply (admissible_load l r Hall).
Qed.

Lemma admissible_run (ops : list op) (r : TaskRepository) :
  Forall admissible (heap r) → Forall admissible (heap (run ops r)).
Proof.
  revert r. induction ops as [|o ops IH]; intros r Hall; [done|].
  apply (IH (step o r)). by apply admissible_step.
Qed.

Lemma task_of_Some (id : Z) (r : TaskRepository) (t : Task) :
  task_of id r = Some t ↔ ∃ l, tasks r !! id = Some l ∧ load l r = t.
Proof.
  unfold task_of. destruct (tasks r !! id) as [l|].
  - split; [intros [= <-]; by exists l|]. by intros (l' & [= <-] & <-).
  - split; [done|]. by intros (l' & ? & _).
Qed.

Lemma task_of_store_other (id : Z) (l : loc) (t : Task) (r : TaskRepository) :
  repo_wf r → tasks r !! id ≠ Some l →
  task_of id (store l t r) = task_of id r.
Proof.
  intros Hwf Hne. unfold task_of. simpl.
  destruct (tasks r !! id) as [l'|] eqn:Hl'; [|done].
  f_equal. apply load_store_ne. congruence.
Qed.

End Reachable.

(** X3: in a registry built from a fresh one, the pointer [GetTask]
    returns for an id lies in the heap and leads to the task that
    carries this id, and no other id leads to the same task. *)
Theorem GetTask_returns_own_task (maxT : Z) (ops : list op) (id : Z) (l : loc) :
  repository.GetTask id (run ops (CreateTaskRepository maxT)) = Ok l →
  is_Some (heap (run ops (CreateTaskRepository maxT)) !! l) ∧
  ID (load l (run ops (CreateTaskRepository maxT))) = id ∧
  (∀ id', repository.GetTask id' (run ops (CreateTaskRepository maxT)) = Ok l →
          id' = id).
Proof.
  destruct (repo_wf_run ops _ (repo_wf_fresh maxT)) as (Hval & Hinj & Hid).
  unfold repository.GetTask.
  destruct (tasks (run ops (CreateTaskRepository maxT)) !! id) as [l0|] eqn:Hl;
    [|done].
  intros [= ->]. split; [|split].
  - apply lookup_lt_is_Some. by apply (Hval id).
  - by apply Hid.
  - intros id'.
    destruct (tasks (run ops (CreateTaskRepository maxT)) !! id') as [l1|] eqn:Hl';
      [|done].
    intros [= ->]. by apply (Hinj id' id l).
Qed.

Lemma GetTask_returns_own_task_witness :
  ID (load 1%nat (run [OpCreateTask 7 1; OpCreateTask 9 2]
                      (CreateTaskRepository 5))) = 9.
Proof.
  exact (proj1 (proj2 (GetTask_returns_own_task 5
                         [OpCreateTask 7 1; OpCreateTask 9 2] 9 1%nat eq_refl))).
Defined.

(** X4: whatever calls are made on a fresh registry, every task holds
    at most three objects and the URL of each of them passes the
    extension check. *)
Theorem objects_always_admissible (maxT : Z) (ops : list op) (id : Z) (t : Task) :
  task_of id (run ops (CreateTaskRepository maxT)) = Some t →
  (length (Objects t) ≤ 3)%nat ∧
  ∀ o, o ∈ Objects t → ValidateFileExtension (URL o) = None.
Proof.
  intros Ht. apply task_of_Some in Ht as (l & _ & <-).
  assert (Forall admissible (heap (run ops (CreateTaskRepository maxT)))) as Hall.
  { apply admissible_run. constructor. }
  destruct (admissible_load l _ Hall) as [Hlen Hurls].
  split; [done|]. intros o Ho. by apply (proj1 (Forall_forall _ _) Hurls).
Qed.

Lemma objects_always_admissible_witness :
  let ops := [OpCreateTask 1 1; OpAddObject 1 "a.jpg" 2; OpAddObject 1 "b.exe" 3;
              OpAddObject 1 "c.pdf" 4; OpAddObject 1 "d.jpeg" 5;
              OpAddObject 1 "e.jpg" 6] in
  ∃ t, task_of 1 (run ops (CreateTaskRepository 5)) = Some t ∧
       (length (Objects t) ≤ 3)%nat.
Proof.
  intros ops. eexists. split; [reflexivity|].
  eapply (objects_always_admissible 5 ops 1). reflexivity.
Defined.

(** X5: a call of [AddObject] that succeeds found the task with fewer
    than three objects and a URL that passes the extension check; it
    appends exactly one object, with the clock reading as id, the URL
    and an empty error, after those the task held, and changes neither
    another task nor the map, the active count or the capacity. *)
Theorem AddObject_appends_one (maxT : Z) (ops : list op) (taskID : Z)
    (url : string) (unix_nano : Z) (l : loc) :
  (repository.AddObject taskID url unix_nano
     (run ops (CreateTaskRepository maxT))).1 = Ok l →
  ∃ t,
    task_of taskID (run ops (CreateTaskRepository maxT)) = Some t ∧
    (length (Objects t) < 3)%nat ∧
    ValidateFileExtension url = None ∧
    task_of taskID (repository.AddObject taskID url unix_nano
                      (run ops (CreateTaskRepository maxT))).2
      = Some (set_Objects (Objects t ++ [mkObject unix_nano url EmptyString]) t) ∧
    (∀ id, id ≠ taskID →
       task_of id (repository.AddObject taskID url unix_nano
                     (run ops (CreateTaskRepository maxT))).2
       = task_of id (run ops (CreateTaskRepository maxT))) ∧
    tasks (repository.AddObject taskID url unix_nano
             (run ops (CreateTaskRepository maxT))).2
      = tasks (run ops (CreateTaskRepository maxT)) ∧
    activeTasks (repository.AddObject taskID url unix_nano
                   (run ops (CreateTaskRepository maxT))).2
      = activeTasks (run ops (CreateTaskRepository maxT)) ∧
    maxTasks (repository.AddObject taskID url unix_nano
                (run ops (CreateTaskRepository maxT))).2
      = maxTasks (run ops (CreateTaskRepository maxT)).
Proof.
  pose proof (repo_wf_run ops _ (repo_wf_fresh maxT)) as Hwf.
  set (r := run ops (CreateTaskRepository maxT)) in *.
  destruct (AddObject_cases taskID url unix_nano r)
    as [[e ->]|(l0 & Hl & Hlen & Hext & ->)]; [done|].
  intros _. exists (load l0 r).
  destruct Hwf as (Hval & Hinj & Hid).
  split; [unfold task_of; by rewrite Hl|]. split; [done|]. split; [done|].
  split; [|split; [|done]].
  - unfold task_of. simpl. rewrite Hl. f_equal.
    apply load_store_eq. by apply (Hval taskID).
  - intros id Hne. simpl. apply task_of_store_other; [done|].
    intros Hl'. apply Hne. by apply (Hinj id taskID l0).
Qed.

Lemma AddObject_appends_one_witness :
  ∃ t, task_of 1 (run [OpCreateTask 1 1] (CreateTaskRepository 5)) = Some t ∧
       (length (Objects t) < 3)%nat.
Proof.
  destruct (AddObject_appends_one 5 [OpCreateTask 1 1] 1 "a.jpg" 2 0%nat eq_refl)
    as (t & Ht & Hlen & _).
  by exists t.
Defined.

(** X6: [UpdateTaskStatus] on an id the registry does not hold answers
    [ErrTaskNotFound] and changes nothing. On a task it holds it sets
    the status and nothing else of the task, leaves every other task,
    the map and the capacity as they were, and takes one from the
    active count exactly when the new status is terminal and the old one
    active. *)
Theorem UpdateTaskStatus_effect (maxT : Z) (ops : list op) (id : Z)
    (s : TaskStatus) :
  (task_of id (run ops (CreateTaskRepository maxT)) = None →
     UpdateTaskStatus id s (run ops (CreateTaskRepository maxT))
     = (Some ErrTaskNotFound, run ops (CreateTaskRepository maxT))) ∧
  (∀ t, task_of id (run ops (CreateTaskRepository maxT)) = Some t →
     (UpdateTaskStatus id s (run ops (CreateTaskRepository maxT))).1 = None ∧
     task_of id (UpdateTaskStatus id s (run ops (CreateTaskRepository maxT))).2
       = Some (set_Status s t) ∧
     (∀ id', id' ≠ id →
        task_of id' (UpdateTaskStatus id s (run ops (CreateTaskRepository maxT))).2
        = task_of id' (run ops (CreateTaskRepository maxT))) ∧
     tasks (UpdateTaskStatus id s (run ops (CreateTaskRepository maxT))).2
       = tasks (run ops (CreateTaskRepository maxT)) ∧
     maxTasks (UpdateTaskStatus id s (run ops (CreateTaskRepository maxT))).2
       = maxTasks (run ops (CreateTaskRepository maxT)) ∧
     (min_int < activeTasks (run ops (CreateTaskRepository maxT)) →
      activeTasks (UpdateTaskStatus id s (run ops (CreateTaskRepository maxT))).2
      = if is_terminal s && is_active (Status t)
        then activeTasks (run ops (CreateTaskRepository maxT)) - 1
        else activeTasks (run ops (CreateTaskRepository maxT)))).
Proof.
  pose proof (repo_wf_run ops _ (repo_wf_fresh maxT)) as Hwf.
  pose proof (run_active_in_int ops (CreateTaskRepository maxT) in_int_0) as Hin.
  set (r := run ops (CreateTaskRepository maxT)) in *.
  split.
  - intros Hnone. apply UpdateTaskStatus_missing.
    unfold task_of in Hnone. by destruct (tasks r !! id).
  - intros t Ht. split; [|split; [|split]].
    + apply task_of_Some in Ht as (l & Hl & _).
      by rewrite (UpdateTaskStatus_found id s r l Hl).
    + by apply task_of_update_same.
    + intros id' Hne. by apply task_of_update_other.
    + apply task_of_Some in Ht as (l & Hl & <-).
      rewrite (UpdateTaskStatus_found id s r l Hl). simpl.
      split; [done|]. split; [done|]. intros Hmin.
      destruct (is_terminal s && is_active (Status (load l r))); [|done].
      apply wrap_int_id. unfold in_int, min_int, max_int in *. lia.
Qed.

Lemma UpdateTaskStatus_effect_witness :
  task_of 1 (UpdateTaskStatus 1 StatusDone
               (run [OpCreateTask 1 1] (CreateTaskRepository 5))).2
  = Some (mkTask 1 StatusDone [] 1).
Proof.
  apply (proj2 (UpdateTaskStatus_effect 5 [OpCreateTask 1 1] 1 StatusDone)
           (mkTask 1 StatusWaiting [] 1) eq_refl).
Defined.

Section Listing.

Lemma listed_ids_keys (r : TaskRepository) :
  repo_wf r → listed_ids r = (map_to_list (tasks r)).*1.
Proof.
  intros (_ & _ & Hid). unfold listed_ids, repository.GetAllTasks.
  rewrite <- list_fmap_compose. apply Forall_fmap_ext, Forall_forall.
  intros [id l] Hin. apply elem_of_map_to_list in Hin. simpl. by apply Hid.
Qed.

Lemma GetAllTasks_NoDup (r : TaskRepository) :
  repo_wf r → NoDup (repository.GetAllTasks r).
Proof.
  intros (_ & Hinj & _). unfold repository.GetAllTasks.
  apply NoDup_fmap_2_strong; [|apply NoDup_map_to_list].
  intros [id1 l1] [id2 l2] H1 H2 Heq. simpl in Heq. subst l2.
  apply elem_of_map_to_list in H1, H2. f_equal. by apply (Hinj id1 id2 l1).
Qed.

Lemma elem_of_GetAllTasks (r : TaskRepository) (l : loc) :
  l ∈ repository.GetAllTasks r ↔ ∃ id, tasks r !! id = Some l.
Proof.
  unfold repository.GetAllTasks. rewrite list_elem_of_fmap. split.
  - intros ([id l'] & -> & Hin). exists id. by apply elem_of_map_to_list.
  - intros [id Hl]. exists (id, l). split; [done|]. by apply elem_of_map_to_list.
Qed.

Lemma elem_of_keys (r : TaskRepository) (id : Z) :
  id ∈ (map_to_list (tasks r)).*1 ↔ is_Some (tasks r !! id).
Proof.
  rewrite list_elem_of_fmap. split.
  - intros ([id' l] & -> & Hin). exists l. by apply elem_of_map_to_list.
  - intros [l Hl]. exists (id, l). split; [done|]. by apply elem_of_map_to_list.
Qed.

Lemma length_GetAllTasks (r : TaskRepository) :
  length (repository.GetAllTasks r) = size (tasks r).
Proof.
  unfold repository.GetAllTasks. by rewrite length_fmap, length_map_to_list.
Qed.

(** A run of creations with distinct new ids, within the capacity. *)
Lemma creations_run (clock : list (Z * Z)) :
  ∀ r : TaskRepository,
  0 <= activeTasks r →
  activeTasks r + Z.of_nat (length clock) <= maxTasks r →
  maxTasks r <= max_int →
  NoDup clock.*1 →
  (∀ id, id ∈ clock.*1 → tasks r !! id = None) →
  activeTasks (run (creations clock) r)
    = activeTasks r + Z.of_nat (length clock) ∧
  size (tasks (run (creations clock) r)) = (size (tasks r) + length clock)%nat ∧
  issued_ids (creations clock) r = clock.*1.
Proof.
  induction clock as [|[n now] clock IH]; intros r Ha Hcap Hmax Hnd Hnew.
  - simpl. split; [lia|]. split; [lia|done].
  - apply NoDup_cons in Hnd as [Hn Hnd].
    change (creations ((n, now) :: clock))
      with (OpCreateTask n now :: creations clock).
    rewrite issued_ids_cons, issued_ids_create.
    change (run (OpCreateTask n now :: creations clock) r)
      with (run (creations clock) (step (OpCreateTask n now) r)).
    simpl length in *. simpl step.
    assert (activeTasks r < maxTasks r) as Hlt by lia.
    rewrite (CreateTask_free n now r Hlt). rewrite decide_True by done.
    simpl snd.
    assert (wrap_int (activeTasks r + 1) = activeTasks r + 1) as Hw.
    { apply wrap_int_id. unfold in_int, min_int, max_int in *. lia. }
    set (r1 := mkRepo (heap r ++ [mkTask n StatusWaiting [] now])
                 (<[n := length (heap r)]> (tasks r))
                 (wrap_int (activeTasks r + 1)) (maxTasks r)).
    assert (activeTasks r1 = activeTasks r + 1) as Ha1 by exact Hw.
    destruct (IH r1) as (H1 & H2 & H3); try done.
    { lia. }
    { rewrite Ha1. change (maxTasks r1) with (maxTasks r). lia. }
    { intros id Hid. change (tasks r1) with (<[n := length (heap r)]> (tasks r)).
      rewrite lookup_insert_ne.
      - apply Hnew. simpl. by right.
      - intros ->. done. }
    rewrite H1, H2, H3, Ha1.
    change (tasks r1) with (<[n := length (heap r)]> (tasks r)).
    rewrite map_size_insert_None by (apply Hnew; simpl; by left).
    split; [lia|]. split; [lia|done].
Qed.

End Listing.

(** X7: no call of the registry and no run of [ProcessTask] changes the
    capacity: [GetMaxTasks] answers what [CreateTaskRepository] was
    given. *)
Theorem GetMaxTasks_constant (maxT : Z) (ops : list op) (p : Platform)
    (u : TaskUsecase) (taskID : Z) (fs : gmap string Archive) (sp : list Z) :
  repository.GetMaxTasks (run ops (CreateTaskRepository maxT)) = maxT ∧
  usecase.GetMaxTasks
    (ProcessTask p u taskID (mkWorld (run ops (CreateTaskRepository maxT)) fs sp))
  = maxT.
Proof.
  unfold usecase.GetMaxTasks, repository.GetMaxTasks.
  pose proof (run_maxTasks ops (CreateTaskRepository maxT)) as Hrun.
  simpl in Hrun. split; [done|].
  set (r := run ops (CreateTaskRepository maxT)) in *.
  assert (∀ id s r', maxTasks (UpdateTaskStatus id s r').2 = maxTasks r') as Hup.
  { intros id s r'. apply (step_maxTasks (OpUpdateTaskStatus id s)). }
  unfold ProcessTask. simpl repo.
  pose proof (Hup taskID StatusProcessing r) as H1.
  destruct (UpdateTaskStatus taskID StatusProcessing r) as [[e|] r1]; simpl in *;
    [congruence|].
  destruct (repository.GetTask taskID r1); simpl; [|congruence].
  destruct (os_Create p (zipPath p u taskID)); simpl.
  - destruct (_ =? 0)%nat; simpl; rewrite Hup; congruence.
  - rewrite Hup. congruence.
Qed.

(** X8: a registry created with a capacity of zero or less never holds
    a task: every creation fails with [ErrMaxTasksReached] and every
    run of calls leaves the registry as it was created. *)
Theorem no_capacity_no_task (maxT : Z) (ops : list op) :
  maxT <= 0 →
  run ops (CreateTaskRepository maxT) = CreateTaskRepository maxT ∧
  repository.GetAllTasks (run ops (CreateTaskRepository maxT)) = [] ∧
  ∀ unix_nano now,
    ∃ e, repository.CreateTask unix_nano now (run ops (CreateTaskRepository maxT))
         = (Err e, CreateTaskRepository maxT) ∧
         Is e ErrMaxTasksReached = true.
Proof.
  intros Hcap.
  assert (run ops (CreateTaskRepository maxT) = CreateTaskRepository maxT) as ->.
  { induction ops as [|o ops IH]; [done|].
    change (run (o :: ops) (CreateTaskRepository maxT))
      with (run ops (step o (CreateTaskRepository maxT))).
    assert (step o (CreateTaskRepository maxT) = CreateTaskRepository maxT) as ->;
      [|done].
    destruct o as [n now|id|tid url n|id s|]; unfold step.
    - apply CreateTask_busy. simpl. lia.
    - done.
    - unfold repository.AddObject. simpl tasks. by rewrite lookup_empty.
    - rewrite UpdateTaskStatus_missing; [done|]. apply lookup_empty.
    - done. }
  split; [done|]. split; [done|].
  intros n now. unfold repository.CreateTask. simpl.
  destruct (Z.geb_spec 0 maxT); [|lia]. eexists. split; [done|]. done.
Qed.

Lemma no_capacity_no_task_witness :
  run [OpCreateTask 1 1; OpAddObject 1 "a.jpg" 2; OpUpdateTaskStatus 1 StatusDone]
      (CreateTaskRepository 0)
  = CreateTaskRepository 0.
Proof.
  apply (no_capacity_no_task 0). lia.
Defined.

(** X9: a slot is given back: when an active task is set to a terminal
    status, the next creation succeeds, also in a registry that was
    full and refused creations before. *)
Theorem slot_released_then_reused (r : TaskRepository) (id : Z) (l : loc)
    (t : Task) (s : TaskStatus) (unix_nano now : Z) :
  tasks r !! id = Some l → heap r !! l = Some t →
  is_active (Status t) = true → is_terminal s = true →
  min_int < activeTasks r → activeTasks r <= maxTasks r → maxTasks r <= max_int →
  (activeTasks r = maxTasks r →
     ∃ e, repository.CreateTask unix_nano now r = (Err e, r)) ∧
  ∃ l', (repository.CreateTask unix_nano now (UpdateTaskStatus id s r).2).1 = Ok l'.
Proof.
  intros Hl Ht Hact Hterm Hmin Hle Hmax. split.
  - intros Heq. unfold repository.CreateTask.
    destruct (Z.geb_spec (activeTasks r) (maxTasks r)); [|lia]. by eexists.
  - rewrite (UpdateTaskStatus_found id s r l Hl).
    rewrite (load_lookup l t r Ht), Hterm, Hact. simpl.
    rewrite CreateTask_free; [by eexists|]. simpl.
    rewrite wrap_int_id; [lia|]. unfold in_int, min_int, max_int in *. lia.
Qed.

Lemma slot_released_then_reused_witness :
  let r := run [OpCreateTask 1 1] (CreateTaskRepository 1) in
  (∃ e, repository.CreateTask 2 2 r = (Err e, r)) ∧
  ∃ l', (repository.CreateTask 2 2 (UpdateTaskStatus 1 StatusFailed r).2).1 = Ok l'.
Proof.
  intros r.
  destruct (slot_released_then_reused r 1 0%nat (mkTask 1 StatusWaiting [] 1)
              StatusFailed 2 2) as [Hfull Hfree];
    try reflexivity; try (simpl; unfold min_int, max_int; lia).
  split; [by apply Hfull|exact Hfree].
Defined.

(** X10: in a registry built from a fresh one, [GetAllTasks] lists every
    registered task exactly once: the pointers it returns are pairwise
    distinct and are those [GetTask] returns, and the ids of the listed
    tasks are, without repetition, the ids the creations of the run
    issued. *)
Theorem GetAllTasks_lists_each_task_once (maxT : Z) (ops : list op) :
  NoDup (repository.GetAllTasks (run ops (CreateTaskRepository maxT))) ∧
  (∀ l, l ∈ repository.GetAllTasks (run ops (CreateTaskRepository maxT))
        ↔ ∃ id, repository.GetTask id (run ops (CreateTaskRepository maxT)) = Ok l) ∧
  NoDup (listed_ids (run ops (CreateTaskRepository maxT))) ∧
  (∀ id, id ∈ listed_ids (run ops (CreateTaskRepository maxT))
         ↔ id ∈ issued_ids ops (CreateTaskRepository maxT)).
Proof.
  pose proof (repo_wf_run ops _ (repo_wf_fresh maxT)) as Hwf.
  set (r := run ops (CreateTaskRepository maxT)) in *.
  split; [by apply GetAllTasks_NoDup|]. split; [|split].
  - intros l. rewrite elem_of_GetAllTasks. unfold repository.GetTask.
    split; intros [id H]; exists id.
    + by rewrite H.
    + destruct (tasks r !! id); congruence.
  - rewrite listed_ids_keys by done. apply NoDup_fst_map_to_list.
  - intros id. rewrite listed_ids_keys by done. rewrite elem_of_keys.
    unfold r. rewrite run_registered. simpl. rewrite lookup_empty.
    split; [intros [[? ?]|?]; done|by right].
Qed.

(** X11: creations with pairwise distinct clock readings, no more than
    the capacity, all succeed: the listing then has one task per
    creation, their ids are the clock readings, and the active count is
    the number of creations. *)
Theorem creations_all_listed (maxT : Z) (clock : list (Z * Z)) :
  NoDup clock.*1 →
  Z.of_nat (length clock) <= maxT → maxT <= max_int →
  length (repository.GetAllTasks (run (creations clock) (CreateTaskRepository maxT)))
    = length clock ∧
  listed_ids (run (creations clock) (CreateTaskRepository maxT)) ≡ₚ clock.*1 ∧
  repository.GetActiveTasksCount (run (creations clock) (CreateTaskRepository maxT))
    = Z.of_nat (length clock).
Proof.
  intros Hnd Hlen Hmax.
  destruct (creations_run clock (CreateTaskRepository maxT))
    as (Hact & Hsize & Hissued); simpl; try lia; try done.
  pose proof (repo_wf_run (creations clock) _ (repo_wf_fresh maxT)) as Hwf.
  split; [|split].
  - rewrite length_GetAllTasks, Hsize. simpl. by rewrite map_size_empty.
  - apply NoDup_Permutation; [|done|].
    + rewrite listed_ids_keys by done. apply NoDup_fst_map_to_list.
    + intros id. rewrite listed_ids_keys by done. rewrite elem_of_keys.
      rewrite run_registered, Hissued. simpl. rewrite lookup_empty.
      split; [intros [[? ?]|?]; done|by right].
  - unfold repository.GetActiveTasksCount. rewrite Hact. simpl. lia.
Qed.

Lemma creations_all_listed_witness :
  length (repository.GetAllTasks
            (run (creations [(1, 1); (2, 2); (3, 3)]) (CreateTaskRepository 3)))
  = 3%nat.
Proof.
  apply (creations_all_listed 3 [(1, 1); (2, 2); (3, 3)]).
  - simpl. repeat (apply NoDup_cons; split; [rewrite ?elem_of_cons, elem_of_nil; lia|]).
    apply NoDup_nil_2.
  - simpl. lia.
  - unfold max_int. lia.
Defined.

Section ActiveCount.

Lemma count_active_seq (h pre : list Task) :
  length (filter (λ l : loc,
                    is_active (Status (default zeroTask ((pre ++ h) !! l))) = true)
                 (seq (length pre) (length h)))
  = count_active h.
Proof.
  revert pre. induction h as [|t h IH]; intros pre; [done|].
  change (seq (length pre) (length (t :: h)))
    with (length pre :: seq (S (length pre)) (length h)).
  rewrite filter_cons, list_lookup_middle by done.
  specialize (IH (pre ++ [t])).
  rewrite <- app_assoc, length_app in IH. simpl in IH.
  rewrite Nat.add_1_r in IH.
  change (count_active (t :: h))
    with ((if is_active (Status t) then 1 else 0) + count_active h)%nat.
  rewrite <- IH. simpl default.
  case_decide as Hact.
  - rewrite Hact. done.
  - destruct (is_active (Status t)); done.
Qed.

Lemma listed_active_count (r : TaskRepository) :
  repository.GetAllTasks r ≡ₚ seq 0 (length (heap r)) →
  length (listed_active r) = count_active (heap r).
Proof.
  intros Hperm. unfold listed_active.
  rewrite (Permutation_length
             (filter_Permutation
                (λ l : loc, is_active (Status (load l r)) = true) _ _ Hperm)).
  apply (count_active_seq (heap r) []).
Qed.

Lemma step_heap_length (o : op) (r : TaskRepository) :
  length (heap (step o r))
  = (length (heap r) + length (issued_ids [o] r))%nat.
Proof.
  destruct o as [n now|id|tid url n|id s|]; try (simpl; lia).
  - rewrite issued_ids_create. unfold step. case_decide as Hlt.
    + rewrite (CreateTask_free n now r Hlt). simpl. by rewrite length_app.
    + destruct (CreateTask_busy n now r) as [-> _]; [lia|simpl; lia].
  - simpl.
    destruct (AddObject_cases tid url n r) as [[e ->]|(l & _ & _ & _ & ->)];
      simpl; rewrite ?length_insert; lia.
  - simpl. update_cases id s r l Hl; simpl; rewrite ?length_insert; lia.
Qed.

(** As long as no creation issues an id the registry already holds,
    the listing is, up to its order, the whole heap. *)
Lemma listing_step (o : op) (r : TaskRepository) :
  repository.GetAllTasks r ≡ₚ seq 0 (length (heap r)) →
  (∀ id, id ∈ issued_ids [o] r → tasks r !! id = None) →
  repository.GetAllTasks (step o r) ≡ₚ seq 0 (length (heap (step o r))).
Proof.
  intros Hperm Hnew. rewrite step_heap_length.
  unfold repository.GetAllTasks in *. rewrite step_tasks.
  destruct o as [n now|id|tid url n|id s|];
    try (simpl; by rewrite Nat.add_0_r).
  rewrite issued_ids_create in *. case_decide as Hlt.
  - rewrite map_to_list_insert by (apply Hnew, elem_of_cons; by left).
    rewrite fmap_cons. simpl. rewrite Nat.add_1_r, seq_S. simpl.
    rewrite Hperm. apply Permutation_cons_append.
  - simpl. by rewrite Nat.add_0_r.
Qed.

Lemma listing_run (ops : list op) :
  ∀ r : TaskRepository,
  repository.GetAllTasks r ≡ₚ seq 0 (length (heap r)) →
  NoDup (issued_ids ops r) →
  (∀ id, id ∈ issued_ids ops r → tasks r !! id = None) →
  repository.GetAllTasks (run ops r) ≡ₚ seq 0 (length (heap (run ops r))).
Proof.
  induction ops as [|o ops IH]; intros r Hperm Hnd Hnew; [done|].
  rewrite issued_ids_cons in Hnd, Hnew.
  apply NoDup_app in Hnd as (_ & Hdisj & Hnd).
  change (run (o :: ops) r) with (run ops (step o r)).
  apply IH; [|done|].
  - apply listing_step; [done|]. intros id Hid. apply Hnew, elem_of_app. by left.
  - intros id Hid.
    destruct (tasks (step o r) !! id) as [l|] eqn:Hl; [|done]. exfalso.
    destruct (proj1 (step_registered o r id)) as [[l' Hl']|Hin]; [by eexists| |].
    + rewrite Hnew in Hl'; [done|]. apply elem_of_app. by right.
    + by apply (Hdisj id).
Qed.

(** With the four statuses only and without reactivation the counter is
    the number of task records whose status is active. *)
Lemma step_active_exact (o : op) (r : TaskRepository) :
  activeTasks r = Z.of_nat (count_active (heap r)) →
  activeTasks r <= maxTasks r → maxTasks r <= max_int →
  known_status o = true → reactivates o r = false →
  activeTasks (step o r) = Z.of_nat (count_active (heap (step o r))) ∧
  activeTasks (step o r) <= maxTasks r.
Proof.
  intros Hc Hhi Hmax Hknown Hre.
  destruct o as [n now|id|tid url n|id s|]; simpl; try done.
  - destruct (decide (activeTasks r < maxTasks r)) as [Hlt|Hge].
    + rewrite (CreateTask_free n now r Hlt). simpl.
      rewrite count_active_app. simpl.
      rewrite wrap_int_id; [lia|]. unfold in_int, min_int, max_int in *. lia.
    + destruct (CreateTask_busy n now r) as [-> _]; [lia|done].
  - destruct (AddObject_cases tid url n r) as [[e ->]|(l & _ & _ & _ & ->)];
      simpl; [done|].
    split; [|done]. rewrite count_active_insert_same; done.
  - simpl in Hre, Hknown. unfold task_of in Hre.
    destruct (tasks r !! id) as [l|] eqn:Hl.
    + rewrite (UpdateTaskStatus_found id s r l Hl). simpl.
      unfold load in *.
      destruct (heap r !! l) as [t|] eqn:Ht; simpl in *.
      * pose proof (count_active_insert (heap r) l t (set_Status s t) Ht) as Hins.
        simpl in Hins.
        destruct (is_terminal s) eqn:Hts; simpl.
        -- rewrite (terminal_not_active s Hts) in Hins.
           destruct (is_active (Status t)) eqn:Hat.
           ++ rewrite wrap_int_id; [lia|]. unfold in_int, min_int, max_int in *. lia.
           ++ lia.
        -- rewrite orb_false_r in Hknown. rewrite Hknown in Hins, Hre.
           simpl in Hre. apply negb_false_iff in Hre. rewrite Hre in Hins. lia.
      * rewrite list_insert_ge by (by apply lookup_ge_None).
        rewrite andb_false_r. done.
    + rewrite (UpdateTaskStatus_missing id s r Hl). done.
Qed.

Lemma run_active_exact (ops : list op) :
  ∀ r : TaskRepository,
  activeTasks r = Z.of_nat (count_active (heap r)) →
  activeTasks r <= maxTasks r → maxTasks r <= max_int →
  forallb known_status ops = true → no_reactivation ops r = true →
  activeTasks (run ops r) = Z.of_nat (count_active (heap (run ops r))).
Proof.
  induction ops as [|o ops IH]; intros r Hc Hhi Hmax Hknown Hno; [done|].
  simpl in Hknown, Hno.
  apply andb_true_iff in Hknown as [Hk Hknown].
  apply andb_true_iff in Hno as [Hre Hno]. apply negb_true_iff in Hre.
  destruct (step_active_exact o r Hc Hhi Hmax Hk Hre) as [Hc' Hhi'].
  change (run (o :: ops) r) with (run ops (step o r)).
  apply IH; rewrite ?step_maxTasks; done.
Qed.

End ActiveCount.

(** X12: when the statuses set are the four of the service, no update
    takes a task from a status that is not active to an active one, and
    no two creations read the same clock value, [GetActiveTasksCount]
    is the number of listed tasks whose status is waiting or
    processing. *)
Theorem active_count_is_listed_active (maxT : Z) (ops : list op) :
  0 <= maxT <= max_int →
  forallb known_status ops = true →
  no_reactivation ops (CreateTaskRepository maxT) = true →
  NoDup (issued_ids ops (CreateTaskRepository maxT)) →
  repository.GetActiveTasksCount (run ops (CreateTaskRepository maxT))
  = Z.of_nat (length (listed_active (run ops (CreateTaskRepository maxT)))).
Proof.
  intros Hcap Hknown Hno Hnd. unfold repository.GetActiveTasksCount.
  rewrite run_active_exact; simpl; try done; try lia.
  rewrite listed_active_count; [done|].
  apply listing_run; [done|done|]. intros id _. apply lookup_empty.
Qed.

Lemma active_count_is_listed_active_witness :
  let ops := [OpCreateTask 1 1; OpCreateTask 2 2; OpCreateTask 3 3;
              OpUpdateTaskStatus 1 StatusProcessing; OpUpdateTaskStatus 1 StatusDone;
              OpUpdateTaskStatus 1 StatusFailed; OpAddObject 2 "a.jpg" 4] in
  repository.GetActiveTasksCount (run ops (CreateTaskRepository 5)) = 2 ∧
  length (listed_active (run ops (CreateTaskRepository 5))) = 2%nat.
Proof.
  intros ops.
  assert (repository.GetActiveTasksCount (run ops (CreateTaskRepository 5))
          = Z.of_nat (length (listed_active (run ops (CreateTaskRepository 5)))))
    as H.
  { apply (active_count_is_listed_active 5 ops); try reflexivity.
    - unfold max_int. lia.
    - vm_compute. repeat (apply NoDup_cons; split;
        [rewrite ?elem_of_cons, elem_of_nil; lia|]). apply NoDup_nil_2. }
  assert (repository.GetActiveTasksCount (run ops (CreateTaskRepository 5)) = 2)
    as H2 by reflexivity.
  split; [exact H2|]. rewrite H2 in H. lia.
Defined.

(** ** The archive pipeline and the trigger *)

Section Pipeline.

Variable p : Platform.
Variable u : TaskUsecase.

(** The status [ProcessTask] leaves on a task that holds [objs]. *)
Lemma archive_count_zero (objs : list Object) :
  ((foldl (archive_object p) ([], 0%nat) objs).2 =? 0)%nat
  = negb (existsb (fetched p) objs).
Proof.
  destruct (archive_fold p objs ([], 0%nat)) as [Hn _]. simpl in Hn. rewrite Hn.
  destruct (existsb (fetched p) objs) eqn:Hex; simpl.
  - apply Nat.eqb_neq. intros Hz. apply no_fetch_iff in Hz. congruence.
  - apply Nat.eqb_eq. by apply no_fetch_iff.
Qed.

(** [ProcessTask] on a task of the registry, as one state change. *)
Lemma ProcessTask_found (taskID : Z) (w : World) (l : loc) (t : Task) :
  tasks (repo w) !! taskID = Some l → heap (repo w) !! l = Some t →
  let path := zipPath p u taskID in
  let ok := os_Create p path && existsb (fetched p) (Objects t) in
  repo (ProcessTask p u taskID w)
  = mkRepo (<[l := set_Status (if ok then StatusDone else StatusFailed) t]>
              (heap (repo w)))
           (tasks (repo w)) (wrap_int (activeTasks (repo w) - 1))
           (maxTasks (repo w)) ∧
  spawned (ProcessTask p u taskID w) = spawned w ∧
  files (ProcessTask p u taskID w)
  = if os_Create p path
    then if existsb (fetched p) (Objects t)
         then <[path := (foldl (archive_object p) ([], 0%nat) (Objects t)).1]>
                (files w)
         else delete path (files w)
    else files w.
Proof.
  intros Hl Ht path ok.
  pose proof (load_lookup l t (repo w) Ht) as Hload.
  assert (l < length (heap (repo w)))%nat as Hlt by (by eapply lookup_lt_Some).
  pose proof (UpdateTaskStatus_found taskID StatusProcessing (repo w) l Hl) as Hup.
  rewrite Hload in Hup. simpl in Hup.
  set (r1 := mkRepo (<[l:=set_Status StatusProcessing t]> (heap (repo w)))
               (tasks (repo w)) (activeTasks (repo w)) (maxTasks (repo w))) in *.
  assert (load l r1 = set_Status StatusProcessing t) as Hload1.
  { unfold load, r1. simpl. by rewrite list_lookup_insert_eq. }
  assert (∀ s, is_terminal s = true →
            (UpdateTaskStatus taskID s r1).2
            = mkRepo (<[l := set_Status s t]> (heap (repo w))) (tasks (repo w))
                (wrap_int (activeTasks (repo w) - 1)) (maxTasks (repo w)))
    as Hfinal.
  { intros s Hs. rewrite (UpdateTaskStatus_found taskID s r1 l) by done.
    rewrite Hload1, Hs. simpl. by rewrite list_insert_insert_eq. }
  unfold ProcessTask. rewrite Hup.
  unfold repository.GetTask. simpl tasks. rewrite Hl. fold path.
  rewrite Hload1. simpl Objects. rewrite archive_count_zero. subst ok.
  destruct (os_Create p path); simpl.
  - destruct (existsb (fetched p) (Objects t)); simpl; by rewrite Hfinal.
  - by rewrite Hfinal.
Qed.

End Pipeline.

(** X13: [ProcessTask] on an id the registry does not hold changes
    nothing: no task, no file, no count. *)
Theorem ProcessTask_unknown_task (p : Platform) (u : TaskUsecase) (taskID : Z)
    (w : World) :
  tasks (repo w) !! taskID = None → ProcessTask p u taskID w = w.
Proof.
  intros Hl. unfold ProcessTask.
  rewrite (UpdateTaskStatus_missing taskID StatusProcessing (repo w) Hl).
  apply set_repo_same.
Qed.

Lemma ProcessTask_unknown_task_witness :
  let p := mkPlatform (λ dir name, dir +:+ "/" +:+ name) (λ url, url)
             (λ _, true) (λ _, None) (λ _, true) (λ _ body, (body, true)) in
  let w := mkWorld (CreateTaskRepository 5) ∅ [] in
  ProcessTask p (CreateTaskUsecase "/srv") 7 w = w.
Proof.
  intros p w. apply (ProcessTask_unknown_task p (CreateTaskUsecase "/srv") 7 w).
  reflexivity.
Defined.

(** X14: every run of [ProcessTask] on a task of the registry takes
    exactly one from the active count, whatever the status of the task
    was before and whatever the outcome: also a task that was already
    done or failed gives a slot back a second time. *)
Theorem ProcessTask_takes_one_slot (p : Platform) (u : TaskUsecase) (taskID : Z)
    (w : World) (l : loc) (t : Task) :
  tasks (repo w) !! taskID = Some l → heap (repo w) !! l = Some t →
  min_int < activeTasks (repo w) <= max_int →
  usecase.GetActiveTasksCount (ProcessTask p u taskID w)
  = usecase.GetActiveTasksCount w - 1.
Proof.
  intros Hl Ht Hrange.
  destruct (ProcessTask_found p u taskID w l t Hl Ht) as (Hrepo & _ & _).
  unfold usecase.GetActiveTasksCount, repository.GetActiveTasksCount.
  rewrite Hrepo. simpl. apply wrap_int_id.
  unfold in_int, min_int, max_int in *. lia.
Qed.

Lemma ProcessTask_takes_one_slot_witness :
  let p := mkPlatform (λ dir name, dir +:+ "/" +:+ name) (λ url, url)
             (λ _, true) (λ _, None) (λ _, true) (λ _ body, (body, true)) in
  let w := mkWorld (run [OpCreateTask 7 7; OpUpdateTaskStatus 7 StatusDone]
                        (CreateTaskRepository 5)) ∅ [] in
  usecase.GetActiveTasksCount w = 0 ∧
  usecase.GetActiveTasksCount (ProcessTask p (CreateTaskUsecase "/srv") 7 w) = -1.
Proof.
  intros p w. split; [reflexivity|].
  apply (ProcessTask_takes_one_slot p (CreateTaskUsecase "/srv") 7 w 0%nat
           (mkTask 7 StatusDone [] 7)); try reflexivity.
  change (min_int < 0 <= max_int). unfold min_int, max_int. lia.
Defined.

(** X15: [ProcessTask] touches nothing but the status of its task, the
    active count and the file at its archive path: the task keeps its
    id, objects and creation time and ends in a terminal status, every
    other task record, the map, the capacity, every other file and the
    list of started runs are as before. *)
Theorem ProcessTask_frame (p : Platform) (u : TaskUsecase) (taskID : Z)
    (w : World) (l : loc) (t : Task) :
  tasks (repo w) !! taskID = Some l → heap (repo w) !! l = Some t →
  (∃ s, is_terminal s = true ∧
        heap (repo (ProcessTask p u taskID w)) !! l = Some (set_Status s t)) ∧
  (∀ l', l' ≠ l →
     heap (repo (ProcessTask p u taskID w)) !! l' = heap (repo w) !! l') ∧
  tasks (repo (ProcessTask p u taskID w)) = tasks (repo w) ∧
  maxTasks (repo (ProcessTask p u taskID w)) = maxTasks (repo w) ∧
  spawned (ProcessTask p u taskID w) = spawned w ∧
  (∀ path, path ≠ zipPath p u taskID →
     files (ProcessTask p u taskID w) !! path = files w !! path).
Proof.
  intros Hl Ht.
  assert (l < length (heap (repo w)))%nat as Hlt by (by eapply lookup_lt_Some).
  destruct (ProcessTask_found p u taskID w l t Hl Ht) as (Hrepo & Hsp & Hfiles).
  rewrite Hrepo, Hsp, Hfiles. simpl.
  split; [|split; [|split; [done|split; [done|split; [done|]]]]].
  - eexists. split; [|by apply list_lookup_insert_eq].
    by destruct (os_Create p (zipPath p u taskID) && existsb (fetched p) (Objects t)).
  - intros l' Hne. by apply list_lookup_insert_ne.
  - intros path Hne.
    destruct (os_Create p (zipPath p u taskID)); [|done].
    destruct (existsb (fetched p) (Objects t)).
    + by apply lookup_insert_ne.
    + by apply lookup_delete_ne.
Qed.

Lemma ProcessTask_frame_witness :
  let p := mkPlatform (λ dir name, dir +:+ "/" +:+ name) (λ url, url)
             (λ _, true) (λ _, None) (λ _, true) (λ _ body, (body, true)) in
  let w := mkWorld (run [OpCreateTask 7 7; OpAddObject 7 "a.jpg" 8; OpCreateTask 9 9]
                        (CreateTaskRepository 5))
                   {[ "/srv/task_9.zip" := [("b.pdf", "payload")] ]} [7] in
  files (ProcessTask p (CreateTaskUsecase "/srv") 7 w) !! "/srv/task_9.zip"
  = Some [("b.pdf", "payload")].
Proof.
  intros p w.
  destruct (ProcessTask_frame p (CreateTaskUsecase "/srv") 7 w 0%nat
              (mkTask 7 StatusWaiting [mkObject 8 "a.jpg" EmptyString] 7)
              eq_refl eq_refl) as (_ & _ & _ & _ & _ & Hfiles).
  assert ("/srv/task_9.zip" ≠ zipPath p (CreateTaskUsecase "/srv") 7) as Hne
    by (by vm_compute).
  exact (Hfiles "/srv/task_9.zip" Hne).
Defined.

(** X16: a call of [AddObject] made on its own starts [ProcessTask]
    exactly when it succeeds on a task that held two objects, and then
    once, for this task; it never touches a file. *)
Theorem AddObject_starts_processing_at_three (taskID : Z) (url : string)
    (unix_nano : Z) (w : World) (l : loc) (t : Task) :
  tasks (repo w) !! taskID = Some l → heap (repo w) !! l = Some t →
  spawned (usecase.AddObject taskID url unix_nano w).2
  = spawned w ++
    (if bool_decide (length (Objects t) = 2%nat ∧ ValidateFileExtension url = None)
     then [ID t] else []) ∧
  files (usecase.AddObject taskID url unix_nano w).2 = files w.
Proof.
  intros Hl Ht.
  destruct (AddObject_alone taskID url unix_nano w l t Hl Ht)
    as [(e & -> & Hwhy)|(Hlen & Hext & w' & -> & _ & _ & Hfiles & Hsp)]; simpl.
  - split; [|done]. rewrite bool_decide_eq_false_2; [by rewrite app_nil_r|].
    intros [H2 Hok]. destruct Hwhy as [[H3 _]|(_ & Hbad & _)]; [lia|done].
  - split; [|done]. rewrite Hsp. f_equal.
    destruct (Nat.eqb_spec (length (Objects t) + 1) 3) as [Heq|Hne].
    + rewrite bool_decide_eq_true_2; [done|]. split; [lia|done].
    + rewrite bool_decide_eq_false_2; [done|]. intros [H2 _]. lia.
Qed.

Lemma AddObject_starts_processing_at_three_witness :
  let w := mkWorld (run [OpCreateTask 7 7; OpAddObject 7 "a.jpg" 8;
                         OpAddObject 7 "b.pdf" 9] (CreateTaskRepository 5)) ∅ [] in
  spawned (usecase.AddObject 7 "c.jpeg" 10 w).2 = [7] ∧
  spawned (usecase.AddObject 7 "c.docx" 10 w).2 = [].
Proof.
  intros w.
  pose (t := mkTask 7 StatusWaiting
               [mkObject 8 "a.jpg" EmptyString; mkObject 9 "b.pdf" EmptyString] 7).
  split.
  - apply (AddObject_starts_processing_at_three 7 "c.jpeg" 10 w 0%nat t);
      reflexivity.
  - apply (AddObject_starts_processing_at_three 7 "c.docx" 10 w 0%nat t);
      reflexivity.
Defined.

(** ** The bulk attach run call by call, and what the handlers answer *)

Section Batch.

Variable taskID : Z.



Lemma call_all_spawned (l : loc) (cs : list (string * Z)) :
  ∀ (w : World) (t : Task),
  tasks (repo w) !! taskID = Some l → heap (repo w) !! l = Some t →
  ∃ t',
    tasks (repo (call_all taskID cs w).2) = tasks (repo w) ∧
    heap (repo (call_all taskID cs w).2) !! l = Some t' ∧
    ID t' = ID t ∧
    (length (Objects t) ≤ length (Objects t'))%nat ∧
    ((length (Objects t) ≤ 3)%nat → (length (Objects t') ≤ 3)%nat) ∧
    spawned (call_all taskID cs w).2
    = spawned w ++
      (if (length (Objects t) <? 3)%nat && (length (Objects t') =? 3)%nat
       then [ID t] else []).
Proof.
  induction cs as [|c cs IH]; intros w t Hl Ht.
  - exists t. unfold call_all. simpl.
    split; [done|]. split; [done|]. split; [done|]. split; [lia|].
    split; [done|].
    destruct (Nat.ltb_spec (length (Objects t)) 3);
      destruct (Nat.eqb_spec (length (Objects t)) 3); simpl;
      rewrite ?app_nil_r; try done; lia.
  - rewrite call_all_cons. simpl snd.
    destruct (AddObject_alone taskID c.1 c.2 w l t Hl Ht)
      as [(e & -> & _)|(Hlen & _ & w1 & -> & Htasks & Hheap & _ & Hsp)]; simpl snd.
    + apply (IH w t Hl Ht).
    + rewrite <- Htasks in Hl.
      destruct (IH w1 _ Hl Hheap) as (t' & H1 & H2 & H3 & H4 & H5 & H6).
      simpl in H3, H4, H5, H6. rewrite length_app in H4, H5, H6. simpl in H4, H5, H6.
      exists t'. split; [congruence|]. split; [done|]. split; [done|].
      split; [lia|]. split; [intros _; apply H5; lia|].
      rewrite H6, Hsp, <- app_assoc. f_equal.
      destruct (Nat.ltb_spec (length (Objects t)) 3); [|lia].
      assert (length (Objects t') ≤ 3)%nat by (apply H5; lia).
      destruct (Nat.eqb_spec (length (Objects t) + 1) 3);
        destruct (Nat.ltb_spec (length (Objects t) + 1) 3);
        destruct (Nat.eqb_spec (length (Objects t')) 3); simpl; try done; lia.
Qed.

End Batch.

Section Replies.

Lemma Is_root (e target : error) :
  (∀ e' rest, target ≠ Errorf_w e' rest) →
  Is e target = bool_decide (root e = target).
Proof.
  intros Hsent. induction e as [| | | |e IH rest]; simpl;
    try (by repeat case_bool_decide).
  destruct (decide (Errorf_w e rest = target)) as [Heq|Hne].
  - exfalso. by apply (Hsent e rest).
  - by rewrite (bool_decide_eq_false_2 _ Hne).
Qed.

Lemma root_sentinel (e e' : error) (rest : string) : root e ≠ Errorf_w e' rest.
Proof. induction e; simpl; done. Qed.

Lemma ResponseErrorAndLog_root (e : error) :
  ResponseErrorAndLog e
  = match root e with
    | ErrTaskNotFound => BadResponse 404 "task not found"
    | ErrMaxTasksReached => BadResponse 429 "server is busy"
    | ErrMaxObjectsReached => BadResponse 400 "maximum objects reached"
    | _ => BadResponse 400 "invalid file type"
    end.
Proof.
  unfold ResponseErrorAndLog. rewrite !Is_root by done.
  pose proof (root_sentinel e) as Hs.
  destruct (root e) as [| | | |e' rest]; try done.
  by destruct (Hs e' rest).
Qed.

Lemma foldl_snoc_map {A B : Type} (f : A → B) (l : list A) (init : list B) :
  foldl (λ acc x, acc ++ [f x]) init l = init ++ map f l.
Proof.
  revert init. induction l as [|x l IH]; intros init; simpl.
  - by rewrite app_nil_r.
  - rewrite IH. by rewrite <- app_assoc.
Qed.

End Replies.

(** X17: a batch of [AddObject] calls on one task, made one after the
    other, starts [ProcessTask] at most once: exactly when the task had
    fewer than three objects before the batch and has three after it. *)
Theorem batch_starts_processing_once (taskID : Z) (cs : list (string * Z))
    (w : World) (l : loc) (t : Task) :
  tasks (repo w) !! taskID = Some l → heap (repo w) !! l = Some t →
  ∃ t', heap (repo (call_all taskID cs w).2) !! l = Some t' ∧
    spawned (call_all taskID cs w).2
    = spawned w ++
      (if bool_decide ((length (Objects t) < 3)%nat ∧ length (Objects t') = 3%nat)
       then [ID t] else []).
Proof.
  intros Hl Ht.
  destruct (call_all_spawned taskID l cs w t Hl Ht) as (t' & _ & H2 & _ & _ & _ & H6).
  exists t'. split; [done|]. rewrite H6. f_equal.
  destruct (Nat.ltb_spec (length (Objects t)) 3);
    destruct (Nat.eqb_spec (length (Objects t')) 3); simpl.
  - by rewrite bool_decide_eq_true_2.
  - rewrite bool_decide_eq_false_2; [done|]. by intros [_ ?].
  - rewrite bool_decide_eq_false_2; [done|]. intros [? _]. lia.
  - rewrite bool_decide_eq_false_2; [done|]. intros [? _]. lia.
Qed.

Lemma batch_starts_processing_once_witness :
  let w := (usecase.CreateTask 7 7 (mkWorld (CreateTaskRepository 5) ∅ [])).2 in
  let cs := [("a.jpg", 8); ("b.pdf", 9); ("c.jpeg", 10); ("d.jpg", 11)] in
  ∃ t', heap (repo (call_all 7 cs w).2) !! 0%nat = Some t' ∧
    spawned (call_all 7 cs w).2
    = spawned w ++
      (if bool_decide ((length (Objects (mkTask 7 StatusWaiting [] 7)) < 3)%nat ∧
                       length (Objects t') = 3%nat)
       then [7] else []).
Proof.
  intros w cs.
  apply (batch_starts_processing_once 7 cs w 0%nat (mkTask 7 StatusWaiting [] 7));
    reflexivity.
Defined.



(** X19: [ResponseErrorAndLog] answers a wrapped error as it answers
    the sentinel at the bottom of the wrapping, so no error of the
    registry or the validator, however wrapped, is answered 500. *)
Theorem ResponseErrorAndLog_by_sentinel (e : error) :
  ResponseErrorAndLog e = ResponseErrorAndLog (root e) ∧
  (∀ text, ResponseErrorAndLog e ≠ BadResponse 500 text) ∧
  (∀ rest, ResponseErrorAndLog (Errorf_w e rest) = ResponseErrorAndLog e).
Proof.
  split; [|split].
  - rewrite !ResponseErrorAndLog_root.
    assert (root (root e) = root e) as ->; [|done].
    induction e; simpl; done.
  - intros text. rewrite ResponseErrorAndLog_root. by destruct (root e).
  - intros rest. by rewrite !ResponseErrorAndLog_root.
Qed.

(** X20: the handler of a creation answers 429 with the message of the
    wrapped error, the capacity and the active count when the registry
    is full, and changes nothing; otherwise it answers 201 with the new
    task, which the handler of a lookup then answers with 200. *)
Theorem CreateTask_handler_replies (unix_nano now : Z) (w : World) :
  (activeTasks (repo w) >= maxTasks (repo w) →
     handlers.CreateTask unix_nano now w
     = (handlers.BusyJSON 429
          ("server is busy (max tasks limit): current " +:+
           Sprintf_d (activeTasks (repo w)) +:+ ", max " +:+
           Sprintf_d (maxTasks (repo w)))
          (maxTasks (repo w)) (activeTasks (repo w))
          "Try again later or wait for current tasks to complete", w)) ∧
  (activeTasks (repo w) < maxTasks (repo w) →
     (handlers.CreateTask unix_nano now w).1
     = handlers.TaskJSON 201 (mkTask unix_nano StatusWaiting [] now) ∧
     handlers.GetTask unix_nano (handlers.CreateTask unix_nano now w).2
     = handlers.TaskJSON 200 (mkTask unix_nano StatusWaiting [] now)).
Proof.
  unfold handlers.CreateTask, usecase.CreateTask. split.
  - intros Hge. unfold repository.CreateTask.
    destruct (Z.geb_spec (activeTasks (repo w)) (maxTasks (repo w))); [|lia].
    by rewrite set_repo_same.
  - intros Hlt. rewrite (CreateTask_free unix_nano now (repo w) Hlt).
    simpl. rewrite load_alloc_new. split; [done|].
    unfold handlers.GetTask, usecase.GetTask, repository.GetTask. simpl.
    rewrite lookup_insert_eq. by rewrite load_alloc_new.
Qed.

Lemma CreateTask_handler_replies_witness :
  let w := mkWorld (CreateTaskRepository 1) ∅ [] in
  (handlers.CreateTask 7 8 w).1 = handlers.TaskJSON 201 (mkTask 7 StatusWaiting [] 8) ∧
  (handlers.CreateTask 9 9 (handlers.CreateTask 7 8 w).2).1
  = handlers.BusyJSON 429 "server is busy (max tasks limit): current 1, max 1" 1 1
      "Try again later or wait for current tasks to complete".
Proof.
  intros w. split.
  - apply (proj2 (CreateTask_handler_replies 7 8 w)). change (0 < 1). lia.
  - rewrite (proj1 (CreateTask_handler_replies 9 9 (handlers.CreateTask 7 8 w).2));
      [reflexivity|]. change (1 >= 1). lia.
Defined.

(** X21: the status handler names a download exactly when the task is
    done; asked after a run of [ProcessTask], it answers done with the
    download of the task when the archive file could be created and at
    least one object was fetched, and failed without a download
    otherwise. *)
Theorem GetTaskStatus_after_ProcessTask (p : Platform) (u : TaskUsecase)
    (taskID : Z) (w : World) (l : loc) (t : Task) :
  tasks (repo w) !! taskID = Some l → heap (repo w) !! l = Some t →
  handlers.GetTaskStatus taskID w
  = handlers.StatusJSON 200 (Status t)
      (if bool_decide (Status t = StatusDone)
       then Some ("/download/" +:+ Sprintf_d taskID) else None) ∧
  handlers.GetTaskStatus taskID (ProcessTask p u taskID w)
  = if os_Create p (zipPath p u taskID) && existsb (fetched p) (Objects t)
    then handlers.StatusJSON 200 StatusDone (Some ("/download/" +:+ Sprintf_d taskID))
    else handlers.StatusJSON 200 StatusFailed None.
Proof.
  intros Hl Ht.
  assert (l < length (heap (repo w)))%nat as Hlt by (by eapply lookup_lt_Some).
  destruct (ProcessTask_found p u taskID w l t Hl Ht) as (Hrepo & _ & _).
  unfold handlers.GetTaskStatus, usecase.GetTaskStatus, repository.GetTask.
  rewrite Hrepo. simpl tasks. rewrite Hl. split.
  - rewrite (load_lookup l t (repo w) Ht). f_equal.
    destruct (String.eqb_spec (Status t) StatusDone) as [Heq|Hne].
    + by rewrite bool_decide_eq_true_2.
    + by rewrite bool_decide_eq_false_2.
  - unfold load. simpl heap. rewrite list_lookup_insert_eq by done. simpl.
    by destruct (os_Create p (zipPath p u taskID) && existsb (fetched p) (Objects t)).
Qed.

Lemma GetTaskStatus_after_ProcessTask_witness :
  let p := mkPlatform (λ dir name, dir +:+ "/" +:+ name) (λ url, url)
             (λ _, true)
             (λ url, if String.eqb url "a.jpg" then Some (mkResponse 200 "payload")
                     else None)
             (λ _, true) (λ _ body, (body, true)) in
  let u := CreateTaskUsecase "/srv" in
  let w := mkWorld (run [OpCreateTask 7 7; OpAddObject 7 "a.jpg" 8]
                        (CreateTaskRepository 5)) ∅ [] in
  handlers.GetTaskStatus 7 w = handlers.StatusJSON 200 StatusWaiting None ∧
  handlers.GetTaskStatus 7 (ProcessTask p u 7 w)
  = handlers.StatusJSON 200 StatusDone (Some "/download/7").
Proof.
  intros p u w.
  exact (GetTaskStatus_after_ProcessTask p u 7 w 0%nat
           (mkTask 7 StatusWaiting [mkObject 8 "a.jpg" EmptyString] 7)
           eq_refl eq_refl).
Defined.

(** X22: the listing handler answers 200 in every case: with the
    message that there are no tasks and count 0 exactly when the
    registry holds none, and otherwise with one entry per registered
    task, in the order of [GetAllTasks], each with the id, status,
    creation time and number of objects of its task, and with the
    number of entries as count. *)
Theorem GetAllTasks_handler_replies (w : World) :
  (tasks (repo w) = ∅ →
     handlers.GetAllTasks w
     = handlers.NoTasksJSON 200 "No tasks found"
         "Create a new task with POST /api/v1/tasks" 0) ∧
  (tasks (repo w) ≠ ∅ →
     handlers.GetAllTasks w
     = handlers.TasksJSON 200 (Z.of_nat (size (tasks (repo w))))
         (map (λ l, handlers.mkTaskResponse (ID (load l (repo w)))
                      (Status (load l (repo w))) (CreatedAt (load l (repo w)))
                      (Z.of_nat (length (Objects (load l (repo w))))))
              (repository.GetAllTasks (repo w)))).
Proof.
  unfold handlers.GetAllTasks, usecase.GetAllTasks.
  rewrite foldl_snoc_map. simpl app. rewrite length_map, length_GetAllTasks.
  split.
  - intros ->. by rewrite map_size_empty.
  - intros Hne. destruct (Nat.eqb_spec (size (tasks (repo w))) 0) as [Hz|Hnz];
      [|done].
    by apply map_size_empty_iff in Hz.
Qed.

Lemma GetAllTasks_handler_replies_witness :
  let w := mkWorld (run [OpCreateTask 7 8; OpAddObject 7 "a.jpg" 9]
                        (CreateTaskRepository 5)) ∅ [] in
  handlers.GetAllTasks w
  = handlers.TasksJSON 200 1 [handlers.mkTaskResponse 7 StatusWaiting 8 1] ∧
  handlers.GetAllTasks (mkWorld (CreateTaskRepository 5) ∅ [])
  = handlers.NoTasksJSON 200 "No tasks found"
      "Create a new task with POST /api/v1/tasks" 0.
Proof.
  intros w. split.
  - rewrite (proj2 (GetAllTasks_handler_replies w)); [reflexivity|].
    intros Hempty. by apply (f_equal (λ m, m !! 7)) in Hempty.
  - apply (proj1 (GetAllTasks_handler_replies _)). reflexivity.
Defined.

(** X23: the download handler serves a file only for a registered task
    whose status is done and only the file stored under the archive
    name of this task in ./storage; for a task in any other status it
    answers 404, and 500 when the file is not there. *)
Theorem DownloadArchive_only_when_done (taskID : Z) (w : World) :
  (∀ ct cd body,
     handlers.DownloadArchive taskID w = handlers.ServedFile ct cd body →
     (∃ t, task_of taskID (repo w) = Some t ∧ Status t = StatusDone) ∧
     files w !! ("./storage/" +:+ zipName taskID) = Some body ∧
     ct = "application/zip" ∧
     cd = "attachment; filename=" +:+ zipName taskID) ∧
  (∀ t, task_of taskID (repo w) = Some t → Status t ≠ StatusDone →
     handlers.DownloadArchive taskID w
     = handlers.Written (BadResponse 404 "archive not ready")) ∧
  (∀ t, task_of taskID (repo w) = Some t → Status t = StatusDone →
     files w !! ("./storage/" +:+ zipName taskID) = None →
     handlers.DownloadArchive taskID w
     = handlers.Written (BadResponse 500 "archive file missing")).
Proof.
  unfold handlers.DownloadArchive, usecase.GetTask, repository.GetTask, task_of.
  change ("./storage/task_" +:+ Sprintf_d taskID +:+ ".zip")
    with ("./storage/" +:+ zipName taskID).
  change ("attachment; filename=task_" +:+ Sprintf_d taskID +:+ ".zip")
    with ("attachment; filename=" +:+ zipName taskID).
  destruct (tasks (repo w) !! taskID) as [l|]; [|by repeat split].
  destruct (String.eqb_spec (Status (load l (repo w))) StatusDone) as [Heq|Hne];
    simpl.
  - destruct (files w !! ("./storage/" +:+ zipName taskID)) as [body|] eqn:Hf.
    + split; [|split].
      * intros ct cd body' [= <- <- <-]. split; [by eexists|]. done.
      * intros t [= <-] Hn. done.
      * intros t _ _ [=].
    + split; [|split]; [by intros ct cd body' [=]| |done].
      intros t [= <-] Hn. done.
  - split; [|split]; [by intros ct cd body' [=]|done|].
    intros t [= <-] Hd. done.
Qed.

Lemma DownloadArchive_only_when_done_witness :
  let w := mkWorld (run [OpCreateTask 7 7; OpUpdateTaskStatus 7 StatusProcessing]
                        (CreateTaskRepository 5))
                   {[ "./storage/task_7.zip" := [("a.jpg", "payload")] ]} [] in
  handlers.DownloadArchive 7 w = handlers.Written (BadResponse 404 "archive not ready").
Proof.
  intros w.
  apply (proj1 (proj2 (DownloadArchive_only_when_done 7 w))
           (mkTask 7 StatusProcessing [] 7)); [reflexivity|].
  by vm_compute.
Defined.

(** ** The validator on paths and letter case *)

Section Extensions.

Lemma length_ToLower (s : string) : String.length (ToLower s) = String.length s.
Proof. induction s as [|c s IH]; simpl; [done|]. by rewrite IH. Qed.

Lemma get_ToLower_None (s : string) (k : nat) :
  String.get k s = None → String.get k (ToLower s) = None.
Proof.
  revert k. induction s as [|c s IH]; intros k; simpl; [done|].
  destruct k as [|k]; [done|]. apply IH.
Qed.

Lemma substring_ToLower (s : string) (i n : nat) :
  String.substring i n (ToLower s) = ToLower (String.substring i n s).
Proof.
  revert i n. induction s as [|c s IH]; intros i n; simpl.
  - by destruct i, n.
  - destruct i as [|i].
    + destruct n as [|n]; simpl; [done|]. by rewrite IH.
    + apply IH.
Qed.

Lemma lower_ascii_is_sep (c : ascii) :
  IsPathSeparator (lower_ascii c) = IsPathSeparator c.
Proof. by destruct c as [[] [] [] [] [] [] [] []]. Qed.

Lemma lower_ascii_is_dot (c : ascii) :
  Ascii.eqb (lower_ascii c) "." = Ascii.eqb c ".".
Proof. by destruct c as [[] [] [] [] [] [] [] []]. Qed.

Lemma lower_ascii_idemp (c : ascii) : lower_ascii (lower_ascii c) = lower_ascii c.
Proof. by destruct c as [[] [] [] [] [] [] [] []]. Qed.

Lemma ToLower_idemp (s : string) : ToLower (ToLower s) = ToLower s.
Proof.
  induction s as [|c s IH]; simpl; [done|]. by rewrite IH, lower_ascii_idemp.
Qed.

Lemma ext_scan_ToLower (s : string) (n : nat) :
  ext_scan (ToLower s) n = ToLower (ext_scan s n).
Proof.
  induction n as [|i IH]; simpl; [done|].
  destruct (String.get i s) as [c|] eqn:Hc.
  - rewrite (get_ToLower s i c Hc), lower_ascii_is_sep, lower_ascii_is_dot.
    destruct (IsPathSeparator c); [done|].
    destruct (Ascii.eqb c "."); [|done].
    by rewrite length_ToLower, substring_ToLower.
  - by rewrite (get_ToLower_None s i Hc).
Qed.

Lemma Ext_ToLower (s : string) : Ext (ToLower s) = ToLower (Ext s).
Proof. unfold Ext. by rewrite length_ToLower, ext_scan_ToLower. Qed.

(** The scan of [filepath.Ext] does not pass a separator. *)
Lemma ext_scan_after_sep (pre name : string) (k : nat) :
  ext_scan ((pre +:+ "/") +:+ name) (String.length (pre +:+ "/") + k)
  = ext_scan name k.
Proof.
  induction k as [|k IH].
  - rewrite Nat.add_0_r, string_length_app. simpl String.length.
    rewrite Nat.add_1_r. simpl ext_scan.
    rewrite <- string_app_assoc.
    pose proof (string_get_app_r pre ("/" +:+ name) 0) as Hget.
    rewrite Nat.add_0_r in Hget. rewrite Hget. done.
  - rewrite Nat.add_succ_r. simpl ext_scan.
    rewrite string_get_app_r, IH.
    destruct (String.get k name) as [c|]; [|done].
    destruct (IsPathSeparator c); [done|].
    destruct (Ascii.eqb c "."); [|done].
    rewrite string_substring_app_r. f_equal.
    rewrite (string_length_app (pre +:+ "/") name). lia.
Qed.

Lemma Ext_after_sep (dir name : string) : Ext (dir +:+ "/" +:+ name) = Ext name.
Proof.
  unfold Ext. rewrite string_app_assoc.
  rewrite (string_length_app (dir +:+ "/") name). apply ext_scan_after_sep.
Qed.

End Extensions.

(** X24: the extension check does not depend on letter case: two URLs
    that differ only in the case of ASCII letters are judged alike. *)
Theorem ValidateFileExtension_ignores_case (url url' : string) :
  ToLower url = ToLower url' →
  ValidateFileExtension url = ValidateFileExtension url'.
Proof.
  intros Heq. unfold ValidateFileExtension.
  by rewrite <- !Ext_ToLower, Heq.
Qed.

Lemma ValidateFileExtension_ignores_case_witness :
  ValidateFileExtension "HTTP://H/A.PDF" = ValidateFileExtension "http://h/a.pdf".
Proof.
  apply (ValidateFileExtension_ignores_case "HTTP://H/A.PDF" "http://h/a.pdf").
  reflexivity.
Defined.

(** X25: the extension check looks at the last path element only: what
    stands before the last slash, dots included, does not matter, and a
    URL that ends in a slash is refused. *)
Theorem ValidateFileExtension_last_element (dir name : string) :
  ValidateFileExtension (dir +:+ "/" +:+ name) = ValidateFileExtension name ∧
  ValidateFileExtension (dir +:+ "/") = Some ErrInvalidFileType.
Proof.
  unfold ValidateFileExtension. split.
  - by rewrite Ext_after_sep.
  - pose proof (Ext_after_sep dir EmptyString) as H.
    rewrite string_app_empty_r in H. by rewrite H.
Qed.

(** ** Archive names *)

Section DecimalNames.

Lemma to_int_not_nil (n : Z) :
  Z.to_int n ≠ Decimal.Pos Decimal.Nil ∧ Z.to_int n ≠ Decimal.Neg Decimal.Nil.
Proof.
  pose proof (DecimalZ.to_of (Z.to_int n)) as H. rewrite DecimalZ.of_to in H.
  split; intros Heq; rewrite Heq in H; discriminate H.
Qed.

Lemma Sprintf_d_inj (n m : Z) : Sprintf_d n = Sprintf_d m → n = m.
Proof.
  unfold Sprintf_d. intros Heq.
  destruct (to_int_not_nil n) as [Hn1 Hn2]. destruct (to_int_not_nil m) as [Hm1 Hm2].
  pose proof (NilZero.isi (Z.to_int n) Hn1 Hn2) as H1.
  pose proof (NilZero.isi (Z.to_int m) Hm1 Hm2) as H2.
  rewrite Heq, H2 in H1. injection H1 as H1. symmetry.
  by apply DecimalZ.to_int_inj.
Qed.

Lemma string_app_inv_tail (s1 s2 t : string) : s1 +:+ t = s2 +:+ t → s1 = s2.
Proof.
  revert s2. induction s1 as [|c s1 IH]; intros [|c2 s2] Heq.
  - done.
  - exfalso. apply (f_equal String.length) in Heq.
    rewrite string_app_nil, string_app_cons in Heq. simpl in Heq.
    rewrite string_length_app in Heq. lia.
  - exfalso. apply (f_equal String.length) in Heq.
    rewrite string_app_nil, string_app_cons in Heq. simpl in Heq.
    rewrite string_length_app in Heq. lia.
  - rewrite !string_app_cons in Heq. injection Heq as -> Heq.
    f_equal. by apply IH.
Qed.

End DecimalNames.

(** X26: [ProcessTask] writes the archive of a task to the storage
    directory joined with a file name made of the decimal id, and two
    tasks with different ids never get the same file name. *)
Theorem archive_names_distinct (id1 id2 : Z) :
  (∀ p u, zipPath p u id1 = filepath_Join p (storagePath u) (zipName id1)) ∧
  (zipName id1 = zipName id2 → id1 = id2).
Proof.
  split; [done|]. unfold zipName. intros Heq.
  apply (String.app_inj "task_") in Heq.
  apply string_app_inv_tail in Heq. by apply Sprintf_d_inj.
Qed.

Lemma archive_names_distinct_witness :
  zipName 7 = zipName (3 + 4) ∧ 7 = 3 + 4.
Proof.
  split; [reflexivity|].
  apply (proj2 (archive_names_distinct 7 (3 + 4))). reflexivity.
Defined.

(** ** The configuration *)

Section Environment.

Lemma checkEnv_cond (env : config.Environ) (envVar : string) :
  negb (config.LookupEnv env envVar).2 ||
  String.eqb (config.LookupEnv env envVar).1 EmptyString
  = is_missing env envVar.
Proof.
  unfold config.LookupEnv, is_missing. by destruct (env !! envVar).
Qed.

Lemma checkEnv_fold (env : config.Environ) (l init : list string) :
  foldl (λ missingVars envVar,
           if negb (config.LookupEnv env envVar).2 ||
              String.eqb (config.LookupEnv env envVar).1 EmptyString
           then missingVars ++ [envVar]
           else missingVars) init l
  = init ++ List.filter (is_missing env) l.
Proof.
  revert init. induction l as [|x l IH]; intros init; simpl.
  - by rewrite app_nil_r.
  - rewrite IH, checkEnv_cond. destruct (is_missing env x); [|done].
    by rewrite <- app_assoc.
Qed.

Lemma checkEnv_filter (env : config.Environ) (envVars : list string) :
  config.checkEnv env envVars
  = match List.filter (is_missing env) envVars with
    | [] => None
    | missing =>
        Some ("error: this env vars are missing: " +:+ config.Sprintf_v missing)
    end.
Proof.
  unfold config.checkEnv. rewrite checkEnv_fold. simpl app.
  by destruct (List.filter (is_missing env) envVars).
Qed.

Lemma filter_nil_iff {A : Type} (c : A → bool) (l : list A) :
  List.filter c l = [] ↔ ∀ x, x ∈ l → c x = false.
Proof.
  induction l as [|x l IH]; simpl.
  - split; [|done]. intros _ y Hy. by apply elem_of_nil in Hy.
  - destruct (c x) eqn:Hx.
    + split; [done|]. intros H. specialize (H x). rewrite Hx in H.
      discriminate H. by left.
    + rewrite IH. split.
      * intros H y Hy. apply elem_of_cons in Hy as [->|Hy]; [done|by apply H].
      * intros H y Hy. apply H. by right.
Qed.

End Environment.

(** X27: [checkEnv] answers nil exactly when every variable of the list
    is set to a non-empty value; otherwise its error names, in the order
    of the list, the variables that are unset or empty, and no other. *)
Theorem checkEnv_reports_missing (env : config.Environ) (envVars : list string) :
  (config.checkEnv env envVars = None
   ↔ ∀ v, v ∈ envVars → ∃ value, env !! v = Some value ∧ value ≠ EmptyString) ∧
  (∀ err, config.checkEnv env envVars = Some err →
     err = "error: this env vars are missing: " +:+
           config.Sprintf_v (List.filter (is_missing env) envVars)) ∧
  (∀ v, v ∈ List.filter (is_missing env) envVars
        ↔ v ∈ envVars ∧ (env !! v = None ∨ env !! v = Some EmptyString)).
Proof.
  rewrite checkEnv_filter. split; [|split].
  - destruct (List.filter (is_missing env) envVars) as [|m ms] eqn:Hf.
    + split; [|done]. intros _ v Hv.
      pose proof (proj1 (filter_nil_iff _ _) Hf v Hv) as Hm.
      unfold is_missing in Hm. destruct (env !! v) as [value|]; [|done].
      exists value. split; [done|]. intros ->. done.
    + split; [done|]. intros Hall. exfalso.
      assert (List.filter (is_missing env) envVars = []) as Hnil; [|congruence].
      apply filter_nil_iff. intros v Hv. destruct (Hall v Hv) as (value & Hl & Hne).
      unfold is_missing. rewrite Hl. by apply String.eqb_neq.
  - intros err. by destruct (List.filter (is_missing env) envVars); intros [= <-].
  - intros v. rewrite list_elem_of_In, filter_In, <- list_elem_of_In.
    unfold is_missing. destruct (env !! v) as [value|]; [|by intuition].
    destruct (String.eqb_spec value EmptyString) as [->|Hne]; [by intuition|].
    split; [by intros [_ ?]|]. intros [_ [?|[= ?]]]; done.
Qed.

Lemma checkEnv_reports_missing_witness :
  let env : config.Environ := {[ "LOG_MODE" := "debug"; "SERVER_PORT" := EmptyString ]} in
  config.checkEnv env ["LOG_MODE"; "SERVER_PORT"; "MAX_ACTIVE_TASKS"]
  = Some "error: this env vars are missing: [SERVER_PORT MAX_ACTIVE_TASKS]".
Proof.
  intros env.
  destruct (config.checkEnv env ["LOG_MODE"; "SERVER_PORT"; "MAX_ACTIVE_TASKS"])
    as [err|] eqn:Hc.
  - rewrite (proj1 (proj2 (checkEnv_reports_missing env
                             ["LOG_MODE"; "SERVER_PORT"; "MAX_ACTIVE_TASKS"]))
               err Hc).
    reflexivity.
  - by vm_compute in Hc.
Defined.

(** X28: [LoadConfig] fails with the error of [godotenv.Load] behind
    the prefix of the loading step when the file cannot be loaded; it
    fails with the error of [checkEnv] behind its own prefix when, in
    the environment the load leaves, one of LOG_MODE, SERVER_PORT and
    MAX_ACTIVE_TASKS is unset or empty; otherwise it succeeds with the
    values of the first two and, as capacity, the number
    [strconv.ParseInt] gives for the third, its error dropped. *)
Theorem LoadConfig_outcomes (lib : config.Library) (envFile : string)
    (env : config.Environ) :
  (∀ err env', config.godotenv_Load lib envFile env = (Some err, env') →
     config.LoadConfig lib envFile env = inr ("load configuration file: " +:+ err)) ∧
  (∀ env', config.godotenv_Load lib envFile env = (None, env') →
     List.filter (is_missing env') ["LOG_MODE"; "SERVER_PORT"; "MAX_ACTIVE_TASKS"] ≠ [] →
     config.LoadConfig lib envFile env
     = inr ("LoadConfig: error: this env vars are missing: " +:+
            config.Sprintf_v
              (List.filter (is_missing env')
                 ["LOG_MODE"; "SERVER_PORT"; "MAX_ACTIVE_TASKS"]))) ∧
  (∀ env' logMode serverPort maxActive,
     config.godotenv_Load lib envFile env = (None, env') →
     env' !! "LOG_MODE" = Some logMode → logMode ≠ EmptyString →
     env' !! "SERVER_PORT" = Some serverPort → serverPort ≠ EmptyString →
     env' !! "MAX_ACTIVE_TASKS" = Some maxActive → maxActive ≠ EmptyString →
     config.LoadConfig lib envFile env
     = inl (config.mkConfig logMode serverPort
              (config.strconv_ParseInt lib maxActive).1)).
Proof.
  unfold config.LoadConfig, config.validateEnv. split; [|split].
  - by intros err env' ->.
  - intros env' -> Hmiss. rewrite checkEnv_filter.
    destruct (List.filter (is_missing env')
                ["LOG_MODE"; "SERVER_PORT"; "MAX_ACTIVE_TASKS"]); done.
  - intros env' lm sp mt -> Hlm Hlm' Hsp Hsp' Hmt Hmt'. rewrite checkEnv_filter.
    assert (List.filter (is_missing env')
              ["LOG_MODE"; "SERVER_PORT"; "MAX_ACTIVE_TASKS"] = []) as ->.
    { apply filter_nil_iff. intros v Hv. unfold is_missing.
      rewrite !elem_of_cons, elem_of_nil in Hv.
      destruct Hv as [->|[->|[->|[]]]]; rewrite ?Hlm, ?Hsp, ?Hmt;
        by apply String.eqb_neq. }
    unfold config.Getenv, config.LookupEnv, config.stringToInt.
    by rewrite Hlm, Hsp, Hmt.
Qed.

Lemma LoadConfig_outcomes_witness :
  let lib := config.mkLibrary
               (λ file env,
                  if String.eqb file ".env"
                  then (None, {[ "LOG_MODE" := "debug"; "SERVER_PORT" := "8080";
                                 "MAX_ACTIVE_TASKS" := "10" ]} ∪ env)
                  else (Some "open: no such file or directory", env))
               (λ s, if String.eqb s "10" then (10, false) else (0, true)) in
  config.LoadConfig lib ".env" ∅ = inl (config.mkConfig "debug" "8080" 10) ∧
  config.LoadConfig lib "nonexistent.env" ∅
  = inr "load configuration file: open: no such file or directory".
Proof.
  intros lib. split.
  - apply (proj2 (proj2 (LoadConfig_outcomes lib ".env" ∅))
             _ "debug" "8080" "10" eq_refl); by vm_compute.
  - apply (proj1 (LoadConfig_outcomes lib "nonexistent.env" ∅) _ ∅ eq_refl).
Defined.
